(** * A version-aware JSON gateway: expression cache, transformation engine,
      configuration loader and request handler.

    The development follows the TypeScript sources:
    - [ExpressionCache], [JsonataTransformer]  (transformer.ts)
    - [ConfigLoader]                           (config-loader.ts)
    - [Worker]                                 (worker.ts)
    - the records of types.ts.

    The JSONata interpreter, the key/value namespace, the upstream service and
    the clock are collaborators of the code; they appear as the fields of a
    [Host] record and of [Env], and every statement quantifies over them. *)

From Stdlib Require Import ZArith NArith List String Ascii Bool Lia Sorted.
From Stdlib Require Import DecimalString.
Import ListNotations.

Local Open Scope string_scope.
Local Open Scope Z_scope.

(* ------------------------------------------------------------------ *)
(** ** JavaScript strings *)
(* ------------------------------------------------------------------ *)

Module Js.

(** Truthiness of a string: every string but the empty one. *)
Definition truthy_string (s : string) : bool := negb (String.eqb s "").

(** [s.startsWith(p)]. *)
Definition startsWith (p s : string) : bool := String.prefix p s.

Fixpoint drop (n : nat) (s : string) : string :=
  match n, s with
  | O, _ => s
  | S n', String _ s' => drop n' s'
  | S _, EmptyString => EmptyString
  end.

(** [s.replace(pat, rep)] with a string pattern: the first occurrence only. *)
Fixpoint replace (pat rep s : string) : string :=
  if String.prefix pat s then rep ++ drop (String.length pat) s
  else match s with
       | EmptyString => EmptyString
       | String c s' => String c (replace pat rep s')
       end.

(** [s.includes(needle)]. *)
Fixpoint includes (needle s : string) : bool :=
  if String.prefix needle s then true
  else match s with
       | EmptyString => false
       | String _ s' => includes needle s'
       end.

Definition lower_ascii (c : ascii) : ascii :=
  let n := nat_of_ascii c in
  if (Nat.leb 65 n && Nat.leb n 90)%bool then ascii_of_nat (n + 32) else c.

Fixpoint toLowerCase (s : string) : string :=
  match s with
  | EmptyString => EmptyString
  | String c s' => String (lower_ascii c) (toLowerCase s')
  end.

Definition is_digit (c : ascii) : bool :=
  let n := nat_of_ascii c in (Nat.leb 48 n && Nat.leb n 57)%bool.

Definition is_space (c : ascii) : bool :=
  let n := nat_of_ascii c in
  (Nat.leb 9 n && Nat.leb n 13 || Nat.eqb n 32)%bool.

Fixpoint skip_spaces (s : string) : string :=
  match s with
  | String c s' => if is_space c then skip_spaces s' else s
  | EmptyString => EmptyString
  end.

Fixpoint digits_value (acc : Z) (seen : bool) (s : string) : option Z :=
  match s with
  | String c s' =>
      if is_digit c
      then digits_value (acc * 10 + Z.of_nat (nat_of_ascii c - 48)) true s'
      else if seen then Some acc else None
  | EmptyString => if seen then Some acc else None
  end.

(** [parseInt(s, 10)]; [None] is NaN. *)
Definition parseInt (s : string) : option Z :=
  match skip_spaces s with
  | String "-" r => option_map Z.opp (digits_value 0 false r)
  | String "+" r => digits_value 0 false r
  | r => digits_value 0 false r
  end.

(** [n || d] for a number that may be NaN ([None]) or undefined. *)
Definition number_or (o : option Z) (d : Z) : Z :=
  match o with
  | Some n => if n =? 0 then d else n
  | None => d
  end.

Fixpoint all_digits (s : string) : bool :=
  match s with
  | String c s' => (is_digit c && all_digits s')%bool
  | EmptyString => true
  end.

(** Template-literal rendering of an integer. *)
Definition of_Z (z : Z) : string := NilZero.string_of_int (Z.to_int z).

Definition quote : string := String (ascii_of_nat 34) EmptyString.
Definition newline : string := String (ascii_of_nat 10) EmptyString.

Fixpoint join (sep : string) (l : list string) : string :=
  match l with
  | [] => ""
  | [x] => x
  | x :: r => x ++ sep ++ join sep r
  end.

(** The names every object made by a literal or by [JSON.parse] inherits
    from [Object.prototype]: [o[name]] finds a function under them (the
    prototype itself under [__proto__]), and [name in o] is true. *)
Definition inherited_names : list string :=
  ["constructor"; "toString"; "toLocaleString"; "valueOf"; "hasOwnProperty";
   "isPrototypeOf"; "propertyIsEnumerable"; "__proto__"; "__defineGetter__";
   "__defineSetter__"; "__lookupGetter__"; "__lookupSetter__"].

Definition inherited (name : string) : bool :=
  existsb (String.eqb name) inherited_names.

End Js.

(* ------------------------------------------------------------------ *)
(** ** Values and thrown things *)
(* ------------------------------------------------------------------ *)

#[local] Set Warnings "-register-all".

(** The values the handler moves around ([unknown] in the sources): what
    [JSON.parse] and an evaluation can produce.  Numbers are the integers. *)
Inductive JsValue : Type :=
  | JUndefined
  | JNull
  | JBool (b : bool)
  | JNum (n : Z)
  | JStr (s : string)
  | JArr (items : list JsValue)
  | JObj (fields : list (string * JsValue)).

(** [if (v)]: the falsy values are undefined, null, false, 0 and "". *)
Definition truthy (v : JsValue) : bool :=
  match v with
  | JUndefined | JNull => false
  | JBool b => b
  | JNum n => negb (n =? 0)
  | JStr s => Js.truthy_string s
  | JArr _ | JObj _ => true
  end.

(** What a [catch (error)] clause can receive: an [Error] instance with its
    message, or any other value, kept as the text [String(error)] gives. *)
Inductive Thrown : Type :=
  | ErrorObject (message : string)
  | OtherValue (text : string).

(** [error instanceof Error ? error.message : String(error)]. *)
Definition error_message (e : Thrown) : string :=
  match e with
  | ErrorObject m => m
  | OtherValue t => t
  end.

(* ------------------------------------------------------------------ *)
(** ** ExpressionCache (transformer.ts, lines 22-68) *)
(* ------------------------------------------------------------------ *)

Module ExpressionCache.

Section Cache.

(** The cached expression, [unknown] in the source. *)
Variable A : Type.

(** types.ts, [CacheEntry]. *)
Record CacheEntry : Type := {
    expression : A;
    cachedAt : Z;
    ttl : Z
  }.

(** A [Map<string, CacheEntry>]: the entries in insertion order, one per
    key. *)
Definition JsMap : Type := list (string * CacheEntry).

Fixpoint map_get (key : string) (m : JsMap) : option CacheEntry :=
  match m with
  | [] => None
  | (k, e) :: r => if String.eqb k key then Some e else map_get key r
  end.

Definition map_delete (key : string) (m : JsMap) : JsMap :=
  filter (fun p => negb (String.eqb (fst p) key)) m.

(** [Map.set]: a present key keeps its place, a new key goes last. *)
Fixpoint map_set (key : string) (e : CacheEntry) (m : JsMap) : JsMap :=
  match m with
  | [] => [(key, e)]
  | (k, x) :: r =>
      if String.eqb k key then (k, e) :: r else (k, x) :: map_set key e r
  end.

(** [m.keys().next().value]. *)
Definition first_key (m : JsMap) : option string :=
  match m with
  | [] => None
  | (k, _) :: _ => Some k
  end.

Record t : Type := {
    cache : JsMap;
    maxSize : Z
  }.

(** [constructor(maxSize = 100)]. *)
Definition new (maxSize : option Z) : t :=
  {| cache := []; maxSize := match maxSize with Some n => n | None => 100 end |}.

Definition size (c : t) : Z := Z.of_nat (List.length (cache c)).

Definition keys (c : t) : list string := map fst (cache c).

(** [get(key)], with [now] the reading of [Date.now()]. *)
Definition get (now : Z) (key : string) (c : t) : option A * t :=
  match map_get key (cache c) with
  | None => (None, c)
  | Some entry =>
      if now - cachedAt entry >? ttl entry then
        (None, {| cache := map_delete key (cache c); maxSize := maxSize c |})
      else
        (Some (expression entry),
         {| cache := map_set key entry (map_delete key (cache c));
            maxSize := maxSize c |})
  end.

(** [set(key, expression, ttl)]. *)
Definition set (now : Z) (key : string) (e : A) (ttl : Z) (c : t) : t :=
  let m :=
    if size c >=? maxSize c then
      match first_key (cache c) with
      | Some firstKey =>
          if Js.truthy_string firstKey then map_delete firstKey (cache c)
          else cache c
      | None => cache c
      end
    else cache c in
  {| cache := map_set key {| expression := e; cachedAt := now; ttl := ttl |} m;
     maxSize := maxSize c |}.

Definition clear (c : t) : t := {| cache := []; maxSize := maxSize c |}.

(** *** Runs of the cache, with the order of touches

    A run is a list of calls.  Next to the cache it keeps the keys in the
    order they were touched, latest first: a [get] that answers and every
    [set] touch their key. *)

Inductive Op : Type :=
  | OpGet (now : Z) (key : string)
  | OpSet (now : Z) (key : string) (e : A) (ttl : Z).

Definition hit (now : Z) (key : string) (c : t) : bool :=
  match fst (get now key c) with
  | Some _ => true
  | None => false
  end.

(** A [set] inserts a new entry: its key is not in the cache, and it is a
    key the engine can build (never the empty string). *)
Definition admissible (op : Op) (c : t) : bool :=
  match op with
  | OpGet _ _ => true
  | OpSet _ k _ _ =>
      Js.truthy_string k && negb (existsb (String.eqb k) (keys c))
  end.

Definition step (op : Op) (s : t * list string) : t * list string :=
  match op with
  | OpGet now k =>
      (snd (get now k (fst s)),
       if hit now k (fst s) then k :: snd s else snd s)
  | OpSet now k e ttl => (set now k e ttl (fst s), k :: snd s)
  end.

Fixpoint run (ops : list Op) (s : t * list string) : option (t * list string) :=
  match ops with
  | [] => Some s
  | op :: r => if admissible op (fst s) then run r (step op s) else None
  end.

(** How long ago a key was last touched: the number of touches since. *)
Fixpoint age (log : list string) (k : string) : nat :=
  match log with
  | [] => O
  | x :: l => if String.eqb x k then O else S (age l k)
  end.

(** The invariant of a run: the keys are all different and none is
    empty, each one was touched, and along the order of the map each key
    was touched before the next one. *)
Definition touched_before (log : list string) (a b : string) : Prop :=
  (age log b < age log a)%nat.

Definition recency_ordered (log : list string) (ks : list string) : Prop :=
  NoDup ks
  /\ Forall (fun k => k <> "" /\ In k log) ks
  /\ StronglySorted (touched_before log) ks.

End Cache.

(** The keys other than [k]. *)
Definition differs (k : string) : string -> bool := fun x => negb (String.eqb x k).

Arguments expression {A} _.
Arguments cachedAt {A} _.
Arguments ttl {A} _.
Arguments cache {A} _.
Arguments maxSize {A} _.
Arguments map_get {A} _ _.
Arguments map_delete {A} _ _.
Arguments map_set {A} _ _ _.
Arguments first_key {A} _.
Arguments new {A} _.
Arguments size {A} _.
Arguments keys {A} _.
Arguments get {A} _ _ _.
Arguments set {A} _ _ _ _ _.
Arguments clear {A} _.
Arguments OpGet {A} _ _.
Arguments OpSet {A} _ _ _ _.
Arguments hit {A} _ _ _.
Arguments admissible {A} _ _.
Arguments step {A} _ _.
Arguments run {A} _ _.

End ExpressionCache.

(* ------------------------------------------------------------------ *)
(** ** The records of types.ts *)
(* ------------------------------------------------------------------ *)

(** A configuration document comes out of [JSON.parse] and is only then
    checked, so every property may be missing: [None] is [undefined]. *)
Record TransformationExpression : Type := {
    expression : option string;
    cacheTtl : option Z;
    description : option string
  }.

Record VersionTransformation : Type := {
    request : option TransformationExpression;
    response : option TransformationExpression;
    targetVersion : option string
  }.

Record TransformationConfig : Type := {
    version : option string;
    defaultVersion : option string;
    upstreamVersion : option string;
    transformations : option (list (string * VersionTransformation));
    routing : option (list (string * list string));
    metadata : option (list (string * string))
  }.

Inductive TransformDirection : Type := DirRequest | DirResponse.

Definition direction_text (d : TransformDirection) : string :=
  match d with
  | DirRequest => "request"
  | DirResponse => "response"
  end.

Record Metrics : Type := {
    durationMs : Z;
    fromVersion : option string;
    toVersion : option string;
    direction : TransformDirection
  }.

Record TransformationResult : Type := {
    data : JsValue;
    success : bool;
    error : option string;
    metrics : option Metrics
  }.

(** The [context] argument of [transform]. *)
Record TransformContext : Type := {
    ctx_fromVersion : option string;
    ctx_toVersion : option string;
    ctx_direction : TransformDirection;
    ctx_timeout : option Z
  }.

(** [ConfigCache] of config-loader.ts; [ttl] is [None] when the computed
    number is NaN. *)
Record ConfigCache : Type := {
    config : TransformationConfig;
    config_cachedAt : Z;
    config_ttl : option Z
  }.

(** A property that is [undefined] or a string, read with [||], [&&], [!]
    or compared with [!==]. *)
Definition truthy_opt (o : option string) : bool :=
  match o with
  | Some s => Js.truthy_string s
  | None => false
  end.

Definition strict_eq (a b : option string) : bool :=
  match a, b with
  | Some x, Some y => String.eqb x y
  | None, None => true
  | _, _ => false
  end.

(** A value inside a template literal or used as a property key. *)
Definition render (o : option string) : string :=
  match o with
  | Some s => s
  | None => "undefined"
  end.

(* ------------------------------------------------------------------ *)
(** ** Collaborators *)
(* ------------------------------------------------------------------ *)

(** The object [jsonata(source)] returns.  It is determined by the source
    it was compiled from, and is always truthy. *)
Record Compiled : Type := { compiled_from : string }.

(** A promise that settles. *)
Inductive Outcome : Type :=
  | Fulfilled (v : JsValue)
  | Rejected (e : Thrown).

(** What a call of [expression.evaluate(data)] does once it has kept the
    thread busy: it returns a value, throws, or returns a promise that
    settles some time later. *)
Inductive EvalReturn : Type :=
  | ReturnsValue (v : JsValue)
  | ThrowsNow (e : Thrown)
  | ReturnsPromise (after : N) (o : Outcome).

Record Evaluation : Type := {
    busy_ms : N;
    returned : EvalReturn
  }.

(** A value of the key/value namespace: its text, and what
    [JSON.parse(text) as TransformationConfig] makes of it ([None] when the
    parse throws). *)
Record KvValue : Type := {
    kv_text : string;
    kv_document : option TransformationConfig
  }.

Inductive KvOutcome : Type :=
  | KvRejects (e : Thrown)
  | KvResolves (v : option KvValue).

Record KvRead : Type := {
    kv_ms : N;
    kv_outcome : KvOutcome
  }.

(** [Headers]: the pairs as received. *)
Definition Headers : Type := list (string * string).

(** [headers.get(name)]: names compare without case, several values of one
    name are joined. *)
Definition headers_get (name : string) (h : Headers) : option string :=
  match filter (fun p => String.eqb (Js.toLowerCase (fst p)) (Js.toLowerCase name)) h with
  | [] => None
  | l => Some (Js.join ", " (map snd l))
  end.

(** The request built for the upstream service; [up_body] is the value that
    was serialised, [None] for a [null] body. *)
Record UpstreamRequest : Type := {
    up_url : string;
    up_method : string;
    up_headers : Headers;
    up_body : option JsValue
  }.

(** The upstream's answer; [resp_json] is what [.json()] resolves to,
    [None] when it rejects. *)
Record UpstreamResponse : Type := {
    resp_status : Z;
    resp_headers : Headers;
    resp_text : string;
    resp_json : option JsValue
  }.

Inductive FetchOutcome : Type :=
  | FetchRejects (e : Thrown)
  | FetchResolves (r : UpstreamResponse).

Record Host : Type := {
    (** [jsonata(source)]: [Some e] when the parser throws [e]. *)
    jsonata : string -> option Thrown;
    (** [expression.evaluate(data)] of the expression compiled from a source. *)
    evaluate : string -> JsValue -> Evaluation;
    (** The n-th draw of [crypto.randomUUID()]. *)
    randomUUID : nat -> string;
    (** [new Date(ms).toISOString()]. *)
    toISOString : Z -> string;
    (** [new URL(target, base)], the address as text: [inl e] when it
        throws. *)
    new_URL : string -> string -> Thrown + string;
    (** Sending the upstream request (the global [fetch]), with the time it
        takes. *)
    fetch_upstream : UpstreamRequest -> N * FetchOutcome
  }.

(** types.ts, [Env]. *)
Record Env : Type := {
    TRANSFORMATIONS : string -> KvRead;
    UPSTREAM_API : string;
    LOG_LEVEL : option string;
    TRANSFORMATION_TIMEOUT_MS : option string;
    CACHE_TTL_SECONDS : option string
  }.

(* ------------------------------------------------------------------ *)
(** ** The world a request runs in, and the monad of the handlers *)
(* ------------------------------------------------------------------ *)

Inductive Level : Type := LDebug | LInfo | LWarn | LError.

(** A call on the [Logger]: the fixed text of the message, then the
    interpolated values and further arguments. *)
Record LogRecord : Type := {
    log_level : Level;
    log_message : string;
    log_args : list string
  }.

(** A pending [setTimeout] whose callback rejects with [timer_error]. *)
Record Timer : Type := {
    timer_id : nat;
    timer_due : Z;
    timer_error : Thrown
  }.

(** The fields of a [JsonataTransformer]. *)
Record TransformerState : Type := {
    expressionCache : ExpressionCache.t Compiled;
    defaultTimeout : Z
  }.

(** The fields of a [ConfigLoader]. *)
Record LoaderState : Type := {
    loader_cache : option ConfigCache;
    loader_env : Env
  }.

Record World : Type := {
    clock : Z;                      (* Date.now() *)
    timers : list Timer;
    timer_seq : nat;
    logs : list LogRecord;          (* latest first *)
    uuid_seq : nat;
    sent : list UpstreamRequest;    (* requests given to fetch, latest first *)
    kv_reads : list string;         (* keys read from the namespace, latest first *)
    transformer : TransformerState;
    loader : LoaderState
  }.

Inductive Completion (A : Type) : Type :=
  | Normal (a : A)
  | Abrupt (e : Thrown).
  Arguments Normal {A} _.
  Arguments Abrupt {A} _.

Definition M (A : Type) : Type := World -> Completion A * World.

Definition ret {A : Type} (a : A) : M A := fun w => (Normal a, w).

Definition bind {A B : Type} (m : M A) (k : A -> M B) : M B :=
  fun w =>
    match m w with
    | (Normal a, w') => k a w'
    | (Abrupt e, w') => (Abrupt e, w')
    end.

Definition throw {A : Type} (e : Thrown) : M A := fun w => (Abrupt e, w).

(** [try { body } catch (error) { handler }]. *)
Definition try_catch {A : Type} (body : M A) (handler : Thrown -> M A) : M A :=
  fun w =>
    match body w with
    | (Normal a, w') => (Normal a, w')
    | (Abrupt e, w') => handler e w'
    end.

Declare Scope js_scope.
Delimit Scope js_scope with js.
Notation "x <- c ;; k" := (bind c (fun x => k))
  (at level 61, c at next level, right associativity) : js_scope.
Notation "c ;;; k" := (bind c (fun _ => k))
  (at level 61, right associativity) : js_scope.
Local Open Scope js_scope.

Definition with_clock (t : Z) (w : World) : World :=
  {| clock := t; timers := timers w; timer_seq := timer_seq w; logs := logs w;
     uuid_seq := uuid_seq w; sent := sent w; kv_reads := kv_reads w;
     transformer := transformer w;
     loader := loader w |}.

Definition with_timers (l : list Timer) (n : nat) (w : World) : World :=
  {| clock := clock w; timers := l; timer_seq := n; logs := logs w;
     uuid_seq := uuid_seq w; sent := sent w; kv_reads := kv_reads w;
     transformer := transformer w;
     loader := loader w |}.

Definition with_logs (l : list LogRecord) (w : World) : World :=
  {| clock := clock w; timers := timers w; timer_seq := timer_seq w; logs := l;
     uuid_seq := uuid_seq w; sent := sent w; kv_reads := kv_reads w;
     transformer := transformer w;
     loader := loader w |}.

Definition with_uuid_seq (n : nat) (w : World) : World :=
  {| clock := clock w; timers := timers w; timer_seq := timer_seq w; logs := logs w;
     uuid_seq := n; sent := sent w; kv_reads := kv_reads w;
     transformer := transformer w;
     loader := loader w |}.

Definition with_sent (l : list UpstreamRequest) (w : World) : World :=
  {| clock := clock w; timers := timers w; timer_seq := timer_seq w; logs := logs w;
     uuid_seq := uuid_seq w; sent := l; kv_reads := kv_reads w;
     transformer := transformer w;
     loader := loader w |}.

Definition with_kv_reads (l : list string) (w : World) : World :=
  {| clock := clock w; timers := timers w; timer_seq := timer_seq w; logs := logs w;
     uuid_seq := uuid_seq w; sent := sent w; kv_reads := l;
     transformer := transformer w; loader := loader w |}.

Definition with_transformer (t : TransformerState) (w : World) : World :=
  {| clock := clock w; timers := timers w; timer_seq := timer_seq w; logs := logs w;
     uuid_seq := uuid_seq w; sent := sent w; kv_reads := kv_reads w;
     transformer := t;
     loader := loader w |}.

Definition with_loader (l : LoaderState) (w : World) : World :=
  {| clock := clock w; timers := timers w; timer_seq := timer_seq w; logs := logs w;
     uuid_seq := uuid_seq w; sent := sent w; kv_reads := kv_reads w;
     transformer := transformer w;
     loader := l |}.

(** [Date.now()]. *)
Definition Date_now : M Z := fun w => (Normal (clock w), w).

(** Time passing while the thread is busy or the task is suspended. *)
Definition elapse (ms : N) : M unit :=
  fun w => (Normal tt, with_clock (clock w + Z.of_N ms) w).

Definition log (l : Level) (message : string) (args : list string) : M unit :=
  fun w =>
    (Normal tt,
     with_logs ({| log_level := l; log_message := message; log_args := args |} :: logs w) w).

(** [setTimeout(() => reject(e), ms)]. *)
Definition setTimeout (e : Thrown) (ms : Z) : M nat :=
  fun w =>
    let id := timer_seq w in
    (Normal id,
     with_timers ({| timer_id := id; timer_due := clock w + Z.max 0 ms; timer_error := e |}
                    :: timers w) (S id) w).

Definition clearTimeout (id : nat) : M unit :=
  fun w =>
    (Normal tt,
     with_timers (filter (fun t => negb (Nat.eqb (timer_id t) id)) (timers w))
                 (timer_seq w) w).

(** Reading a property of something that may be [undefined]. *)
Definition property {A : Type} (name : string) (o : option A) : M A :=
  match o with
  | Some a => ret a
  | None =>
      throw (ErrorObject ("Cannot read properties of undefined (reading '" ++ name ++ "')"))
  end.

(* ------------------------------------------------------------------ *)
(** ** JsonataTransformer (transformer.ts, lines 73-250) *)
(* ------------------------------------------------------------------ *)

Module JsonataTransformer.

Section Engine.

Variable host : Host.

(** [constructor(options)]. *)
Definition new (cacheSize defaultTimeout : option Z) : TransformerState :=
  {| expressionCache := ExpressionCache.new (Some (Js.number_or cacheSize 100));
     defaultTimeout := Js.number_or defaultTimeout 50 |}.

Definition cache_get (key : string) : M (option Compiled) :=
  fun w =>
    let r := ExpressionCache.get (clock w) key (expressionCache (transformer w)) in
    (Normal (fst r),
     with_transformer {| expressionCache := snd r;
                         defaultTimeout := defaultTimeout (transformer w) |} w).

Definition cache_set (key : string) (e : Compiled) (ttl : Z) : M unit :=
  fun w =>
    (Normal tt,
     with_transformer
       {| expressionCache :=
            ExpressionCache.set (clock w) key e ttl (expressionCache (transformer w));
          defaultTimeout := defaultTimeout (transformer w) |} w).

(** The key of line 97: the first 100 characters of the source. *)
Definition cacheKey (expression : string) : string :=
  "expr:" ++ String.substring 0 100 expression.

(** [compileExpression(expression, cacheTtl = 3600000)], lines 93-119. *)
Definition compileExpression (expression : option string) (cacheTtl : option Z)
  : M Compiled :=
  expression <- property "substring" expression ;;
  let cacheTtl := match cacheTtl with Some n => n | None => 3600000 end in
  let cacheKey := cacheKey expression in
  cached <- cache_get cacheKey ;;
  match cached with
  | Some c => log LDebug "Using cached JSONata expression" [] ;;; ret c
  | None =>
      try_catch
        (match jsonata host expression with
         | Some e => throw e
         | None =>
             let compiled := {| compiled_from := expression |} in
             cache_set cacheKey compiled cacheTtl ;;;
             log LDebug "Compiled and cached new JSONata expression" [] ;;;
             ret compiled
         end)
        (fun error =>
           throw (ErrorObject
                    ("Failed to compile JSONata expression: " ++ error_message error)))
  end.

Definition timeout_error (timeoutMs : Z) : Thrown :=
  ErrorObject ("Transformation timeout after " ++ Js.of_Z timeoutMs ++ "ms").

Definition settle (o : Outcome) : M JsValue :=
  match o with
  | Fulfilled v => ret v
  | Rejected e => throw e
  end.

(** The timers that came due run when the task is suspended.  The promise
    their callback would reject is resolved by then, so the call has no
    effect and the timers only leave the list. *)
Definition run_due_timers : M unit :=
  fun w =>
    (Normal tt,
     with_timers (filter (fun t => clock w <? timer_due t) (timers w)) (timer_seq w) w).

(** [executeWithTimeout(expression, data, timeoutMs)], lines 195-215.  The
    executor of [new Promise] runs at once and to its end: the timer is
    set, [evaluate] keeps the thread for [busy_ms] (no callback runs in
    between), the timer is cleared and the promise is resolved with what
    [evaluate] returned, or rejected with what it threw. *)
Definition executeWithTimeout (expression : Compiled) (data : JsValue) (timeoutMs : Z)
  : M JsValue :=
  timeoutId <- setTimeout (timeout_error timeoutMs) timeoutMs ;;
  let ev := evaluate host (compiled_from expression) data in
  elapse (busy_ms ev) ;;;
  match returned ev with
  | ReturnsValue v => clearTimeout timeoutId ;;; ret v
  | ThrowsNow e => clearTimeout timeoutId ;;; throw e
  | ReturnsPromise after o =>
      clearTimeout timeoutId ;;; elapse after ;;; run_due_timers ;;; settle o
  end.

Definition metrics_of (duration : Z) (context : TransformContext) : Metrics :=
  {| durationMs := duration;
     fromVersion := ctx_fromVersion context;
     toVersion := ctx_toVersion context;
     direction := ctx_direction context |}.

(** [transform(data, transformExpr, context)], lines 124-190. *)
Definition transform (data : JsValue) (transformExpr : TransformationExpression)
           (context : TransformContext) : M TransformationResult :=
  startTime <- Date_now ;;
  fun w =>
  let timeout := Js.number_or (ctx_timeout context) (defaultTimeout (transformer w)) in
  try_catch
    (compiled <- compileExpression (expression transformExpr)
                   (Some (Js.number_or (cacheTtl transformExpr) 3600 * 1000)) ;;
     result <- executeWithTimeout compiled data timeout ;;
     now <- Date_now ;;
     let duration := now - startTime in
     log LDebug "Transformation completed"
         [Js.of_Z duration; direction_text (ctx_direction context);
          render (ctx_fromVersion context); render (ctx_toVersion context)] ;;;
     ret {| data := result; success := true; error := None;
            metrics := Some (metrics_of duration context) |})
    (fun error =>
       now <- Date_now ;;
       let duration := now - startTime in
       let errorMessage := error_message error in
       log LError "Transformation failed:" [errorMessage; Js.of_Z duration] ;;;
       ret {| data := data; success := false; error := Some errorMessage;
              metrics := Some (metrics_of duration context) |})
    w.

(** [clearCache()]. *)
Definition clearCache : M unit :=
  fun w =>
    log LInfo "Expression cache cleared" []
        (with_transformer
           {| expressionCache := ExpressionCache.clear (expressionCache (transformer w));
              defaultTimeout := defaultTimeout (transformer w) |} w).

End Engine.

End JsonataTransformer.

(** [createPassthroughExpression()]. *)
Definition createPassthroughExpression : TransformationExpression :=
  {| expression := Some "$"; cacheTtl := None;
     description := Some "Pass-through (no transformation)" |}.

(* ------------------------------------------------------------------ *)
(** ** ConfigLoader (config-loader.ts) *)
(* ------------------------------------------------------------------ *)

Module ConfigLoader.

Fixpoint assoc {A : Type} (key : string) (l : list (string * A)) : option A :=
  match l with
  | [] => None
  | (k, a) :: r => if String.eqb k key then Some a else assoc key r
  end.

Fixpoint assoc_update {A : Type} (key : string) (f : A -> A) (l : list (string * A))
  : list (string * A) :=
  match l with
  | [] => []
  | (k, a) :: r =>
      if String.eqb k key then (k, f a) :: r else (k, a) :: assoc_update key f r
  end.

(** The object's own keys. *)
Definition own_key {A : Type} (key : string) (l : list (string * A)) : bool :=
  existsb (fun p => String.eqb (fst p) key) l.

(** [key in object]: the own keys, and the names every object inherits. *)
Definition has_key {A : Type} (key : string) (l : list (string * A)) : bool :=
  (own_key key l || Js.inherited key)%bool.

(** What [object[key]] finds: the value under an own key, else a member
    every object inherits (a function, or the prototype under [__proto__]:
    truthy, and without the properties of a transformation), else
    nothing. *)
Inductive Member (A : Type) : Type :=
  | Own (a : A)
  | InheritedMember
  | NoMember.

Arguments Own {A} a.
Arguments InheritedMember {A}.
Arguments NoMember {A}.

Definition member {A : Type} (key : string) (l : list (string * A)) : Member A :=
  match assoc key l with
  | Some a => Own a
  | None => if Js.inherited key then InheritedMember else NoMember
  end.

(** What [getSupportedVersions] returns: a list of versions, or the member
    every object inherits under the name of the path. *)
Inductive Versions : Type :=
  | Listed (versions : list string)
  | InheritedValue (name : string).

(** The loop of [validateConfig] over [Object.entries], lines 490-507. *)
Fixpoint validate_entries (l : list (string * VersionTransformation)) : option Thrown :=
  match l with
  | [] => None
  | (version, transformation) :: r =>
      match request transformation, response transformation with
      | Some rq, Some rs =>
          if (negb (truthy_opt (expression rq)) || negb (truthy_opt (expression rs)))%bool
          then Some (ErrorObject
                       ("Invalid transformation for version " ++ version
                        ++ ": missing expressions"))
          else validate_entries r
      | _, _ =>
          Some (ErrorObject
                  ("Invalid transformation for version " ++ version
                   ++ ": missing request or response"))
      end
  end.

(** [validateConfig(config)], lines 476-508: [Some e] when it throws [e]. *)
Definition validateConfig (config : TransformationConfig) : option Thrown :=
  if negb (truthy_opt (version config))
  then Some (ErrorObject "Configuration missing version field")
  else if negb (truthy_opt (defaultVersion config))
  then Some (ErrorObject "Configuration missing defaultVersion field")
  else match transformations config with
       | None => Some (ErrorObject "Configuration missing transformations object")
       | Some entries => validate_entries entries
       end.

(** The two expression texts of the built-in configuration (template
    literals, with their line breaks and indentation). *)
Definition object_literal (fields : list (string * string)) : string :=
  let indent := "              " in
  "{" ++ Js.newline
  ++ Js.join ("," ++ Js.newline)
       (map (fun f => indent ++ Js.quote ++ fst f ++ Js.quote ++ ": " ++ snd f) fields)
  ++ Js.newline ++ "            }".

Definition default_request_expression : string :=
  object_literal [("id", "user_id"); ("name", "full_name");
                  ("username", "user_name"); ("email", "email_address")].

Definition default_response_expression : string :=
  object_literal [("user_id", "id"); ("full_name", "name");
                  ("user_name", "username"); ("email_address", "email");
                  ("location", "address")].

(** Writing [transformation.<leg>.expression = text] for a version of a
    configuration document. *)
Definition set_expression (text : string) (e : TransformationExpression)
  : TransformationExpression :=
  {| expression := Some text; cacheTtl := cacheTtl e; description := description e |}.

Definition write_request (text : string) (t : VersionTransformation)
  : VersionTransformation :=
  {| request := option_map (set_expression text) (request t);
     response := response t; targetVersion := targetVersion t |}.

Definition write_response (text : string) (t : VersionTransformation)
  : VersionTransformation :=
  {| request := request t;
     response := option_map (set_expression text) (response t);
     targetVersion := targetVersion t |}.

Definition update_version (key : string)
           (f : VersionTransformation -> VersionTransformation)
           (c : TransformationConfig) : TransformationConfig :=
  {| version := version c;
     defaultVersion := defaultVersion c;
     upstreamVersion := upstreamVersion c;
     transformations := option_map (assoc_update key f) (transformations c);
     routing := routing c;
     metadata := metadata c |}.

(** The object literal of [getDefaultConfig], lines 543-593, with the text
    of [new Date().toISOString()]. *)
Definition default_config (generatedAt : string) : TransformationConfig :=
  {| version := Some "1.0.0";
     defaultVersion := Some "v2";
     upstreamVersion := Some "v2";
     transformations :=
       Some [("v1",
              {| request :=
                   Some {| expression := Some default_request_expression;
                           cacheTtl := Some 3600;
                           description := Some "Transform v1 request to v2 format" |};
                 response :=
                   Some {| expression := Some default_response_expression;
                           cacheTtl := Some 3600;
                           description := Some "Transform v2 response back to v1 format" |};
                 targetVersion := Some "v2" |});
             ("v2",
              {| request :=
                   Some {| expression := Some "$";
                           cacheTtl := None;
                           description := Some "No transformation (current version)" |};
                 response :=
                   Some {| expression := Some "$";
                           cacheTtl := None;
                           description := Some "No transformation (current version)" |};
                 targetVersion := Some "v2" |})];
     routing := Some [("/users", ["v1"; "v2"]);
                      ("/posts", ["v1"; "v2"]);
                      ("/comments", ["v1"; "v2"])];
     metadata := Some [("generatedAt", generatedAt);
                       ("generatedBy", "default-config")] |}.

Section Loader.

Variable host : Host.

(** [constructor(env, logger)]. *)
Definition new (env : Env) : LoaderState :=
  {| loader_cache := None; loader_env := env |}.

Definition set_cache (c : option ConfigCache) : M unit :=
  fun w =>
    (Normal tt, with_loader {| loader_cache := c; loader_env := loader_env (loader w) |} w).

(** [this.env.TRANSFORMATIONS.get(key, 'text')]. *)
Definition kv_get (key : string) : M (option KvValue) :=
  fun w =>
    let r := TRANSFORMATIONS (loader_env (loader w)) key in
    let w' := with_kv_reads (key :: kv_reads w)
                            (with_clock (clock w + Z.of_N (kv_ms r)) w) in
    match kv_outcome r with
    | KvRejects e => (Abrupt e, w')
    | KvResolves v => (Normal v, w')
    end.

(** [isCacheValid(cache)], lines 526-529. *)
Definition isCacheValid (cache : ConfigCache) : M bool :=
  now <- Date_now ;;
  ret (match config_ttl cache with
       | Some ttl => now - config_cachedAt cache <? ttl
       | None => false
       end).

(** [cacheConfig(config)], lines 513-521. *)
Definition cacheConfig (config : TransformationConfig) : M unit :=
  fun w =>
    let setting := CACHE_TTL_SECONDS (loader_env (loader w)) in
    let ttl :=
      option_map (fun n => n * 1000)
        (Js.parseInt (if truthy_opt setting then render setting else "3600")) in
    (now <- Date_now ;;
     set_cache (Some {| config := config; config_cachedAt := now; config_ttl := ttl |})) w.

(** [getDefaultConfig()], lines 542-594. *)
Definition getDefaultConfig : M TransformationConfig :=
  now <- Date_now ;;
  ret (default_config (toISOString host now)).

(** [loadFromKV()], lines 380-398. *)
Definition loadFromKV : M (option TransformationConfig) :=
  try_catch
    (configJson <- kv_get "config:main" ;;
     match configJson with
     | Some v =>
         if Js.truthy_string (kv_text v) then
           match kv_document v with
           | None => throw (ErrorObject "Unexpected token in JSON")
           | Some config =>
               match validateConfig config with
               | Some e => throw e
               | None => ret (Some config)
               end
           end
         else log LDebug "No configuration found in KV" [] ;;; ret None
     | None => log LDebug "No configuration found in KV" [] ;;; ret None
     end)
    (fun error =>
       log LError "Error loading from KV:" [error_message error] ;;; ret None).

(** Lines 358-374 of [loadConfig]: the namespace first, then the built-in
    configuration. *)
Definition load_uncached : M TransformationConfig :=
  fromKV <- try_catch
              (kvConfig <- loadFromKV ;;
               match kvConfig with
               | Some kvConfig =>
                   cacheConfig kvConfig ;;;
                   log LInfo "Loaded configuration from KV" [] ;;;
                   ret (Some kvConfig)
               | None => ret None
               end)
              (fun error =>
                 log LWarn "Failed to load from KV, using default config:"
                     [error_message error] ;;;
                 ret None) ;;
  match fromKV with
  | Some kvConfig => ret kvConfig
  | None =>
      defaultConfig <- getDefaultConfig ;;
      cacheConfig defaultConfig ;;;
      log LInfo "Using default configuration" [] ;;;
      ret defaultConfig
  end.

(** [loadConfig()], lines 351-375. *)
Definition loadConfig : M TransformationConfig :=
  fun w =>
  (valid <- match loader_cache (loader w) with
            | Some cache => isCacheValid cache
            | None => ret false
            end ;;
   match loader_cache (loader w), valid with
   | Some cache, true =>
       log LDebug "Using cached configuration" [] ;;; ret (config cache)
   | _, _ => load_uncached
   end) w.

(** [loadExpression(key)], lines 403-414. *)
Definition loadExpression (key : string) : M (option string) :=
  try_catch
    (expression <- kv_get key ;;
     let expression := option_map kv_text expression in
     (if truthy_opt expression
      then log LDebug "Loaded expression from KV: " [key]
      else ret tt) ;;;
     ret expression)
    (fun error =>
       log LError "Failed to load expression" [key; error_message error] ;;; ret None).

(** The assignment [transformation.<leg>.expression = expression] of lines
    435 and 443.  [transformation] is the object held under [version] by
    the document [loadConfig] returned, and that document is the one the
    loader keeps in [this.cache]: the write changes the cached document. *)
Definition assign (version : string)
           (f : VersionTransformation -> VersionTransformation) : M unit :=
  fun w =>
    set_cache
      (option_map
         (fun c => {| config := update_version version f (config c);
                      config_cachedAt := config_cachedAt c;
                      config_ttl := config_ttl c |})
         (loader_cache (loader w))) w.

(** One leg of lines 431-445. *)
Definition resolve_leg (version : string)
           (leg : VersionTransformation -> option TransformationExpression)
           (write : string -> VersionTransformation -> VersionTransformation)
           (transformation : VersionTransformation) : M VersionTransformation :=
  e <- property "expression" (leg transformation) ;;
  source <- property "startsWith" (expression e) ;;
  if Js.startsWith "kv:" source then
    let key := Js.replace "kv:" "" source in
    expression <- loadExpression key ;;
    match expression with
    | Some text =>
        if Js.truthy_string text
        then assign version (write text) ;;; ret (write text transformation)
        else ret transformation
    | None => ret transformation
    end
  else ret transformation.

(** [getVersionTransformation(version)], lines 419-448. *)
Definition getVersionTransformation (version : string)
  : M (option VersionTransformation) :=
  config <- loadConfig ;;
  entries <- property version (transformations config) ;;
  match member version entries with
  | NoMember => log LWarn "No transformation found for version: " [version] ;;; ret None
  | InheritedMember =>
      (* [transformation.request] is undefined *)
      throw (ErrorObject "Cannot read properties of undefined (reading 'expression')")
  | Own transformation =>
      transformation <- resolve_leg version request write_request
                          transformation ;;
      transformation <- resolve_leg version response write_response
                          transformation ;;
      ret (Some transformation)
  end.

(** [isSupportedVersion(version)], lines 453-456. *)
Definition isSupportedVersion (version : string) : M bool :=
  config <- loadConfig ;;
  match transformations config with
  | Some entries => ret (has_key version entries)
  | None =>
      throw (ErrorObject
               ("Cannot use 'in' operator to search for '" ++ version ++ "' in undefined"))
  end.

(** [getSupportedVersions(path)], lines 461-471. *)
Definition getSupportedVersions (path : string) : M Versions :=
  config <- loadConfig ;;
  match match routing config with Some r => member path r | None => NoMember end with
  | Own versions => ret (Listed versions)
  | InheritedMember => ret (InheritedValue path)
  | NoMember =>
      match transformations config with
      | Some entries => ret (Listed (map fst entries))
      | None => throw (ErrorObject "Cannot convert undefined or null to object")
      end
  end.

(** [clearCache()], lines 534-537. *)
Definition clearCache : M unit :=
  set_cache None ;;; log LInfo "Configuration cache cleared" [].

(** [reload()], lines 599-602. *)
Definition reload : M TransformationConfig :=
  clearCache ;;; loadConfig.

End Loader.

End ConfigLoader.

(* ------------------------------------------------------------------ *)
(** ** The request handler (worker.ts) *)
(* ------------------------------------------------------------------ *)

Module Worker.

(** A parsed [URL]. *)
Record URL : Type := {
    pathname : string;
    search : string;
    searchParams : list (string * string)
  }.

(** The incoming [Request]; [req_json] is what [request.json()] resolves
    to, [None] when it rejects. *)
Record Request : Type := {
    req_url : URL;
    req_method : string;
    req_headers : Headers;
    req_json : option JsValue
  }.

(** types.ts, [RequestContext]. *)
Record RequestContext : Type := {
    url : URL;
    method : string;
    headers : Headers;
    apiVersion : string;
    path : string;
    body : JsValue;
    requestId : string
  }.

(** The body of a [Response]: the text [JSON.stringify(v, null, 2)] of a
    value, or a stream passed on as it is. *)
Inductive ResponseBody : Type :=
  | BodyJson (v : JsValue)
  | BodyStream (text : string).

(** A [Response] as the handler builds it.  What the constructor refuses
    is in the functions that call it: a body with a null body status, see
    [json_Response].  Statuses are those of an upstream's answer, 200 to
    599, and the texts written into headers are texts a header accepts. *)
Record Response : Type := {
    status : Z;
    resp_headers_out : Headers;
    resp_body : ResponseBody
  }.

(** [a || b]. *)
Definition or_else (a b : option string) : option string :=
  if truthy_opt a then a else b.

Fixpoint take_digits (s : string) : string * string :=
  match s with
  | String c r =>
      if Js.is_digit c
      then let p := take_digits r in (String c (fst p), snd p)
      else (EmptyString, s)
  | EmptyString => (EmptyString, EmptyString)
  end.

(** [pathname.match(/^\/(v\d+)\//)], the captured group. *)
Definition path_version (pathname : string) : option string :=
  match pathname with
  | String "/" (String "v" r) =>
      let p := take_digits r in
      if (Js.truthy_string (fst p) && String.prefix "/" (snd p))%bool
      then Some (String "v" (fst p))
      else None
  | _ => None
  end.

(** The version detection of [parseRequestContext], lines 232-257 and 277. *)
Definition detect_version (request : Request) : string :=
  let versionHeader :=
    or_else (headers_get "API-Version" (req_headers request))
            (headers_get "X-API-Version" (req_headers request)) in
  let apiVersion := if truthy_opt versionHeader then versionHeader else None in
  let apiVersion :=
    if negb (truthy_opt apiVersion) then
      let versionParam :=
        or_else (ConfigLoader.assoc "api-version" (searchParams (req_url request)))
                (ConfigLoader.assoc "version" (searchParams (req_url request))) in
      if truthy_opt versionParam then versionParam else apiVersion
    else apiVersion in
  let apiVersion :=
    if negb (truthy_opt apiVersion) then
      match path_version (pathname (req_url request)) with
      | Some v => Some v
      | None => apiVersion
      end
    else apiVersion in
  match or_else apiVersion (Some "") with
  | Some v => v
  | None => ""
  end.

(** [createErrorResponse(error, status, apiVersion?)], lines 287-304. *)
Definition createErrorResponse (error : JsValue) (status : Z) (apiVersion : option string)
  : Response :=
  {| status := status;
     resp_headers_out :=
       ([("Content-Type", "application/json")]
        ++ (if truthy_opt apiVersion then [("X-API-Version", render apiVersion)] else [])
        ++ [("X-Powered-By", "JSONata-API-Gateway")])%list;
     resp_body := BodyJson error |}.

Definition is_json (contentType : option string) : bool :=
  match contentType with
  | Some c => Js.includes "application/json" c
  | None => false
  end.

(** The statuses of a response that has no body. *)
Definition null_body_status (status : Z) : bool :=
  existsb (Z.eqb status) [101; 103; 204; 205; 304].

(** What the platform's [fetch] resolves with: an answer with a null body
    status has no body, so its stream is empty and [.json()] rejects. *)
Definition received (r : UpstreamResponse) : UpstreamResponse :=
  if null_body_status (resp_status r)
  then {| resp_status := resp_status r; resp_headers := resp_headers r;
          resp_text := ""; resp_json := None |}
  else r.

(** [new Response(JSON.stringify(v, null, 2), { status, headers })].  The
    constructor throws a TypeError when it is given a body with a null body
    status; [JSON.stringify(undefined)] is undefined, which is no body.  The
    text of the error is the platform's.  Statuses are those of an
    upstream's answer, 200 to 599. *)
Definition json_Response (status : Z) (headers : Headers) (v : JsValue) : M Response :=
  if (null_body_status status
      && match v with JUndefined => false | _ => true end)%bool
  then throw (ErrorObject "Response with null body status cannot have body")
  else ret {| status := status; resp_headers_out := headers; resp_body := BodyJson v |}.

(** The property [supportedVersions] in the text of the error:
    [JSON.stringify] leaves out a property whose value is a function, and
    writes the prototype as an empty object. *)
Definition versions_field (v : ConfigLoader.Versions) : list (string * JsValue) :=
  match v with
  | ConfigLoader.Listed versions => [("supportedVersions", JArr (map JStr versions))]
  | ConfigLoader.InheritedValue name =>
      if String.eqb name "__proto__" then [("supportedVersions", JObj [])] else []
  end.

Section Handler.

Variable host : Host.

Definition draw_uuid : M string :=
  fun w => (Normal (randomUUID host (uuid_seq w)), with_uuid_seq (S (uuid_seq w)) w).

(** [parseRequestContext(request, requestId, logger)], lines 225-282. *)
Definition parseRequestContext (request : Request) (requestId : string)
  : M RequestContext :=
  let url := req_url request in
  let apiVersion := detect_version request in
  body <-
    (if (negb (String.eqb (req_method request) "GET")
         && negb (String.eqb (req_method request) "HEAD")
         && is_json (headers_get "content-type" (req_headers request)))%bool
     then match req_json request with
          | Some v => ret v
          | None => log LWarn "Failed to parse request body:" [] ;;; ret JNull
          end
     else ret JNull) ;;
  ret {| url := url; method := req_method request; headers := req_headers request;
         apiVersion := apiVersion; path := pathname url; body := body;
         requestId := requestId |}.

(** What the request leg decides: an answer for the client, or the body to
    send upstream. *)
Inductive Leg : Type :=
  | Answer (r : Response)
  | Continue (upstreamBody : JsValue).

(** Lines 81-117 of [fetch]. *)
Definition request_leg (context : RequestContext) (config : TransformationConfig)
           (apiVersion : option string) (versionTransform : VersionTransformation)
  : M Leg :=
  if (truthy (body context)
      && negb (strict_eq apiVersion (upstreamVersion config)))%bool
  then
    leg <- property "expression" (request versionTransform) ;;
    if negb (strict_eq (expression leg) (Some "$")) then
      transformResult <-
        JsonataTransformer.transform host (body context) leg
          {| ctx_fromVersion := apiVersion;
             ctx_toVersion := upstreamVersion config;
             ctx_direction := DirRequest;
             ctx_timeout := None |} ;;
      if negb (success transformResult) then
        log LError "Request transformation failed:"
            [requestId context; render (error transformResult)] ;;;
        ret (Answer
               (createErrorResponse
                  (JObj [("error", JStr "Request transformation failed");
                         ("message",
                          JStr (render (or_else (error transformResult)
                                          (Some "Unknown transformation error"))))])
                  400 apiVersion))
      else
        log LDebug "Request transformed"
            [requestId context;
             match metrics transformResult with
             | Some m => Js.of_Z (durationMs m)
             | None => "undefined"
             end] ;;;
        ret (Continue (data transformResult))
    else ret (Continue (body context))
  else ret (Continue (body context)).

(** The request built at lines 119-137. *)
Definition upstream_request (request : Request) (context : RequestContext)
           (upstreamUrl : string) (upstreamBody : JsValue) : UpstreamRequest :=
  {| up_url := upstreamUrl;
     up_method := method context;
     up_headers :=
       ([("X-Forwarded-For",
          render (or_else (headers_get "CF-Connecting-IP" (req_headers request)) (Some "")));
         ("X-Request-ID", requestId context)]
        ++ (if truthy upstreamBody then [("Content-Type", "application/json")] else []))%list;
     up_body := if truthy upstreamBody then Some upstreamBody else None |}.

(** Lines 119-139 of [fetch]. *)
Definition forward (request : Request) (env : Env) (context : RequestContext)
           (upstreamBody : JsValue) : M UpstreamResponse :=
  match new_URL host (pathname (url context) ++ search (url context)) (UPSTREAM_API env) with
  | inl e => throw e
  | inr upstreamUrl =>
      let upstreamRequest := upstream_request request context upstreamUrl upstreamBody in
      fun w =>
        let r := fetch_upstream host upstreamRequest in
        let w' := with_sent (upstreamRequest :: sent w)
                            (with_clock (clock w + Z.of_N (fst r)) w) in
        match snd r with
        | FetchRejects e => (Abrupt e, w')
        | FetchResolves upstreamResponse => (Normal (received upstreamResponse), w')
        end
  end.

(** Lines 141-206 of [fetch]. *)
Definition response_leg (context : RequestContext) (config : TransformationConfig)
           (apiVersion : option string) (versionTransform : VersionTransformation)
           (upstreamResponse : UpstreamResponse) : M Response :=
  let contentType := headers_get "content-type" (resp_headers upstreamResponse) in
  if is_json contentType then
    let responseData :=
      match resp_json upstreamResponse with
      | Some v => v
      | None => JNull
      end in
    transformedResponse <-
      (if (truthy responseData
           && negb (strict_eq apiVersion (upstreamVersion config)))%bool
       then
         leg <- property "expression" (response versionTransform) ;;
         if negb (strict_eq (expression leg) (Some "$")) then
           transformResult <-
             JsonataTransformer.transform host responseData leg
               {| ctx_fromVersion := upstreamVersion config;
                  ctx_toVersion := apiVersion;
                  ctx_direction := DirResponse;
                  ctx_timeout := None |} ;;
           if negb (success transformResult) then
             log LError "Response transformation failed:"
                 [requestId context; render (error transformResult)] ;;;
             ret responseData
           else
             log LDebug "Response transformed"
                 [requestId context;
                  match metrics transformResult with
                  | Some m => Js.of_Z (durationMs m)
                  | None => "undefined"
                  end] ;;;
             ret (data transformResult)
         else ret responseData
       else ret responseData) ;;
    json_Response (resp_status upstreamResponse)
      [("Content-Type", "application/json");
       ("X-API-Version", render apiVersion);
       ("X-Upstream-Version", render (upstreamVersion config));
       ("X-Request-ID", requestId context);
       ("X-Powered-By", "JSONata-API-Gateway");
       ("Access-Control-Allow-Origin", "*")]
      transformedResponse
  else
    (* [upstreamResponse.body] is null when the status is a null body status *)
    ret {| status := resp_status upstreamResponse;
           resp_headers_out :=
             (map (fun p => (Js.toLowerCase (fst p), snd p)) (resp_headers upstreamResponse)
              ++ [("X-API-Version", render apiVersion);
                  ("X-Request-ID", requestId context)])%list;
           resp_body := BodyStream (resp_text upstreamResponse) |}.

(** [new JsonataTransformer({ defaultTimeout: parseInt(...), logger })] and
    [createConfigLoader(env, logger)], lines 34-38. *)
Definition initialize_services (env : Env) : M unit :=
  fun w =>
    let setting := TRANSFORMATION_TIMEOUT_MS env in
    (Normal tt,
     with_transformer
       (JsonataTransformer.new None
          (Js.parseInt (if truthy_opt setting then render setting else "50")))
       (with_loader (ConfigLoader.new env) w)).

(** What lines 30-79 decide: an answer for the client, or what the two legs
    work with. *)
Inductive Prepared : Type :=
  | Refused (r : Response)
  | Ready (context : RequestContext) (config : TransformationConfig)
          (apiVersion : option string) (versionTransform : VersionTransformation).

(** Lines 30-79 of [fetch]. *)
Definition prepare (request : Request) (env : Env) (requestId : string) : M Prepared :=
  context <- parseRequestContext request requestId ;;
  initialize_services env ;;;
  config <- ConfigLoader.loadConfig host ;;
  let apiVersion := or_else (Some (apiVersion context)) (defaultVersion config) in
  log LInfo "request"
      [requestId; method context; path context; render apiVersion] ;;;
  supported <- ConfigLoader.isSupportedVersion host (render apiVersion) ;;
  if negb supported then
    supportedVersions <- ConfigLoader.getSupportedVersions host (path context) ;;
    ret (Refused
           (createErrorResponse
              (JObj ([("error", JStr "Unsupported API version");
                      ("message",
                       JStr ("Version '" ++ render apiVersion ++ "' is not supported"))]
                     ++ versions_field supportedVersions)%list)
              400 apiVersion))
  else
    versionTransform <- ConfigLoader.getVersionTransformation host (render apiVersion) ;;
    match versionTransform with
    | None =>
        ret (Refused
               (createErrorResponse
                  (JObj [("error", JStr "Configuration error");
                         ("message",
                          JStr ("No transformation found for version '"
                                ++ render apiVersion ++ "'"))])
                  500 apiVersion))
    | Some versionTransform => ret (Ready context config apiVersion versionTransform)
    end.

(** The [try] block of [fetch], lines 30-206. *)
Definition handle (request : Request) (env : Env) (requestId : string) : M Response :=
  prepared <- prepare request env requestId ;;
  match prepared with
  | Refused r => ret r
  | Ready context config apiVersion versionTransform =>
      leg <- request_leg context config apiVersion versionTransform ;;
      match leg with
      | Answer r => ret r
      | Continue upstreamBody =>
          upstreamResponse <- forward request env context upstreamBody ;;
          response_leg context config apiVersion versionTransform upstreamResponse
      end
  end.

(** [fetch(request, env, _ctx)], lines 21-219. *)
Definition fetch (request : Request) (env : Env) : M Response :=
  requestId <- draw_uuid ;;
  try_catch
    (handle request env requestId)
    (fun error =>
       log LError "Unhandled error:" [requestId; error_message error] ;;;
       ret (createErrorResponse
              (JObj [("error", JStr "Internal server error");
                     ("message", JStr (error_message error));
                     ("requestId", JStr requestId)])
              500 None)).

End Handler.

End Worker.

(* ------------------------------------------------------------------ *)
(** ** Notions used in the statements *)
(* ------------------------------------------------------------------ *)

(** A property that is missing: [undefined], or the empty string. *)
Definition missing (o : option string) : bool := negb (truthy_opt o).

(** A version entry that lacks a leg, or has a leg without expression text. *)
Definition entry_incomplete (t : VersionTransformation) : bool :=
  match request t, response t with
  | Some rq, Some rs => (missing (expression rq) || missing (expression rs))%bool
  | _, _ => true
  end.

(** The invalid documents in the words of the specification: no schema
    version, no default version, a missing or empty map of transformations,
    or an incomplete entry. *)
Definition spec_invalid (c : TransformationConfig) : bool :=
  (missing (version c)
   || missing (defaultVersion c)
   || match transformations c with
      | None => true
      | Some [] => true
      | Some entries => existsb (fun p => entry_incomplete (snd p)) entries
      end)%bool.

(** The same without the clause on the empty map. *)
Definition invalid_document (c : TransformationConfig) : bool :=
  (missing (version c)
   || missing (defaultVersion c)
   || match transformations c with
      | None => true
      | Some entries => existsb (fun p => entry_incomplete (snd p)) entries
      end)%bool.


(** The cached document of a loader. *)
Definition cached_document (w : World) : option TransformationConfig :=
  option_map config (loader_cache (loader w)).

(* ------------------------------------------------------------------ *)
(** ** A concrete host, stores and requests *)
(* ------------------------------------------------------------------ *)

Module Demo.

Fixpoint repeat_string (n : nat) (s : string) : string :=
  match n with
  | O => ""
  | S n' => s ++ repeat_string n' s
  end.

(** Two field references of 101 characters that share their first 100. *)
Definition long_source_1 : string := repeat_string 100 "x" ++ "1".
Definition long_source_2 : string := repeat_string 100 "x" ++ "2".

(** An interpreter that rejects the sources starting with "{ invalid",
    throws on "$error()", needs a second for "$spin()", and otherwise
    answers with a value that names the source it ran. *)
Definition host : Host :=
  {| jsonata := fun source =>
       if String.prefix "{ invalid" source
       then Some (OtherValue "[object Object]")
       else None;
     evaluate := fun source data =>
       if String.eqb source "$error()"
       then {| busy_ms := 0; returned := ThrowsNow (OtherValue "[object Object]") |}
       else if String.eqb source "$spin()"
       then {| busy_ms := 1000; returned := ReturnsValue (JStr "late") |}
       else if String.eqb source "$"
       then {| busy_ms := 0; returned := ReturnsValue data |}
       else {| busy_ms := 1;
               returned := ReturnsValue (JObj [("ran", JStr source); ("on", data)]) |};
     randomUUID := fun n => "request-" ++ Js.of_Z (Z.of_nat n);
     toISOString := fun _ => "2024-01-15T00:00:00.000Z";
     new_URL := fun target base => inr (base ++ target);
     fetch_upstream := fun _ =>
       (20%N,
        FetchResolves
          {| resp_status := 200;
             resp_headers := [("content-type", "application/json")];
             resp_text := "(the text of the value below)";
             resp_json := Some (JObj [("id", JNum 1); ("name", JStr "A")]) |}) |}.

Definition plain (source : string) : TransformationExpression :=
  {| expression := Some source; cacheTtl := None; description := None |}.

Definition document (entries : list (string * VersionTransformation))
  : TransformationConfig :=
  {| version := Some "1.0.0";
     defaultVersion := Some "v2";
     upstreamVersion := Some "v2";
     transformations := Some entries;
     routing := None;
     metadata := None |}.

Definition current : VersionTransformation :=
  {| request := Some (plain "$"); response := Some (plain "$"); targetVersion := None |}.

(** A document whose map of transformations is empty. *)
Definition empty_map_document : TransformationConfig := document [].

(** A document whose v1 request leg points into the namespace. *)
Definition reference_document : TransformationConfig :=
  document [("v1", {| request := Some (plain "kv:expr:v1-request");
                      response := Some (plain "$");
                      targetVersion := Some "v2" |});
            ("v2", current)].

(** A document whose v1 response leg does not compile. *)
Definition broken_response_document : TransformationConfig :=
  document [("v1", {| request := Some (plain "{ id: user_id }");
                      response := Some (plain "{ invalid syntax");
                      targetVersion := Some "v2" |});
            ("v2", current)].

Definition resolves (text : string) (doc : option TransformationConfig) : KvRead :=
  {| kv_ms := 3;
     kv_outcome := KvResolves (Some {| kv_text := text; kv_document := doc |}) |}.

(** A namespace holding a configuration document and one expression. *)
Definition store_with (doc : TransformationConfig) : string -> KvRead :=
  fun key =>
    if String.eqb key "config:main" then resolves "(the text of the document)" (Some doc)
    else if String.eqb key "expr:v1-request" then resolves "{ id: user_id }" None
    else {| kv_ms := 3; kv_outcome := KvResolves None |}.

(** A namespace whose reads fail. *)
Definition failing_store : string -> KvRead :=
  fun _ => {| kv_ms := 3; kv_outcome := KvRejects (ErrorObject "KV unavailable") |}.

Definition env_with (store : string -> KvRead) : Env :=
  {| TRANSFORMATIONS := store;
     UPSTREAM_API := "https://api.example.com";
     LOG_LEVEL := None;
     TRANSFORMATION_TIMEOUT_MS := None;
     CACHE_TTL_SECONDS := None |}.

(** A world with a new transformer and a new loader. *)
Definition world (env : Env) : World :=
  {| clock := 1700000000000;
     timers := [];
     timer_seq := O;
     logs := [];
     uuid_seq := O;
     sent := [];
     kv_reads := [];
     transformer := JsonataTransformer.new None None;
     loader := ConfigLoader.new env |}.

Definition context_v1 : TransformContext :=
  {| ctx_fromVersion := Some "v1"; ctx_toVersion := Some "v2";
     ctx_direction := DirRequest; ctx_timeout := None |}.

(** POST /users as a v1 client, with a JSON body. *)
Definition post_users (json : option JsValue) : Worker.Request :=
  {| Worker.req_url := {| Worker.pathname := "/users"; Worker.search := "";
                          Worker.searchParams := [] |};
     Worker.req_method := "POST";
     Worker.req_headers := [("API-Version", "v1"); ("Content-Type", "application/json")];
     Worker.req_json := json |}.

(** GET /v3/users?version=v2 with the header API-Version: v1. *)
Definition three_versions : Worker.Request :=
  {| Worker.req_url := {| Worker.pathname := "/v3/users"; Worker.search := "?version=v2";
                          Worker.searchParams := [("version", "v2")] |};
     Worker.req_method := "GET";
     Worker.req_headers := [("API-Version", "v1")];
     Worker.req_json := None |}.

End Demo.

(* ------------------------------------------------------------------ *)
(** ** The remaining functions of transformer.ts *)
(* ------------------------------------------------------------------ *)

(** [getCacheStats()], lines 244-249: the size of the cache, and the
    constant the source returns as [maxSize]. *)
Definition getCacheStats (t : TransformerState) : Z * Z :=
  (ExpressionCache.size (expressionCache t), 100).

(** [registerCustomFunction(name, implementation)], lines 220-231. *)
Definition registerCustomFunction (name : string) : M unit :=
  log LWarn "Custom function registration not yet implemented:" [name].

(** [validateExpression(expression)], lines 265-278: [valid] and [error]. *)
Definition validateExpression (host : Host) (expression : string)
  : bool * option string :=
  match jsonata host expression with
  | Some e => (false, Some (error_message e))
  | None => (true, None)
  end.

(** [createLogger(level)], lines 283-309. *)
Module Logger.

(** The properties every object literal inherits. *)
Definition inherited_names : list string := Js.inherited_names.

(** What [levels[level]] finds: a number of the table, something inherited
    (a function or an object), or nothing. *)
Inductive Lookup : Type :=
  | Rank (n : Z)
  | Inherited
  | Missing.

Definition levels (name : string) : Lookup :=
  if String.eqb name "debug" then Rank 0
  else if String.eqb name "info" then Rank 1
  else if String.eqb name "warn" then Rank 2
  else if String.eqb name "error" then Rank 3
  else if existsb (String.eqb name) inherited_names then Inherited
  else Missing.

(** [levels.debug], [levels.info], [levels.warn], [levels.error]. *)
Definition rank (l : Level) : Z :=
  match l with
  | LDebug => 0
  | LInfo => 1
  | LWarn => 2
  | LError => 3
  end.

(** [levels[level] || levels.info]; [None] stands for a value that is no
    number, which every comparison with a number answers with false. *)
Definition currentLevel (level : string) : option Z :=
  match levels level with
  | Rank n => Some (if n =? 0 then 1 else n)
  | Inherited => None
  | Missing => Some 1
  end.

(** The test [currentLevel <= levels.<method>] of the four methods. *)
Definition emits (level : string) (l : Level) : bool :=
  match currentLevel level with
  | Some n => n <=? rank l
  | None => false
  end.

(** The calls on the logger that reach the console. *)
Definition console (level : string) (records : list LogRecord) : list LogRecord :=
  filter (fun r => emits level (log_level r)) records.

End Logger.

(** The level [fetch] creates its logger with, line 26. *)
Definition worker_log_level (env : Env) : string :=
  if truthy_opt (LOG_LEVEL env) then render (LOG_LEVEL env) else "info".

(* ------------------------------------------------------------------ *)
(** ** Further notions used in the statements *)
(* ------------------------------------------------------------------ *)

(** A computation leaves a component of the world as it found it. *)
Definition keeps {A X : Type} (f : World -> X) (m : M A) : Prop :=
  forall w, f (snd (m w)) = f w.

(** Calls on a cache, one after the other, whatever their keys. *)
Fixpoint apply_ops {A : Type} (ops : list (ExpressionCache.Op A))
         (c : ExpressionCache.t A) : ExpressionCache.t A :=
  match ops with
  | [] => c
  | ExpressionCache.OpGet now k :: r => apply_ops r (snd (ExpressionCache.get now k c))
  | ExpressionCache.OpSet now k e ttl0 :: r =>
      apply_ops r (ExpressionCache.set now k e ttl0 c)
  end.

(** No [set] of the list uses the empty key. *)
Definition sets_named {A : Type} (ops : list (ExpressionCache.Op A)) : bool :=
  forallb (fun op => match op with
                     | ExpressionCache.OpGet _ _ => true
                     | ExpressionCache.OpSet _ k _ _ => Js.truthy_string k
                     end) ops.

(** What a cache of capacity at least 1 keeps: no more entries than its
    capacity, and no empty key. *)
Definition within_capacity {A : Type} (c : ExpressionCache.t A) : Prop :=
  1 <= ExpressionCache.maxSize c
  /\ ExpressionCache.size c <= ExpressionCache.maxSize c
  /\ Forall (fun x => x <> "") (ExpressionCache.keys c).

(** The time to live [cacheConfig] computes, line 514; [None] is NaN. *)
Definition configured_ttl (env : Env) : option Z :=
  option_map (fun n => n * 1000)
    (Js.parseInt (if truthy_opt (CACHE_TTL_SECONDS env)
                  then render (CACHE_TTL_SECONDS env) else "3600")).

(** The pending timers of a world are among those of another. *)
Definition timers_within (w' w : World) : Prop :=
  forall t, In t (timers w') -> In t (timers w).

(** Environments and requests for the examples. *)
Module Demo2.

Definition env_ttl (store : string -> KvRead) (seconds : string) : Env :=
  {| TRANSFORMATIONS := store;
     UPSTREAM_API := "https://api.example.com";
     LOG_LEVEL := Some "debug";
     TRANSFORMATION_TIMEOUT_MS := None;
     CACHE_TTL_SECONDS := Some seconds |}.


(** GET /users as a client of version v9. *)
Definition get_users_v9 : Worker.Request :=
  {| Worker.req_url := {| Worker.pathname := "/users"; Worker.search := "";
                          Worker.searchParams := [] |};
     Worker.req_method := "GET";
     Worker.req_headers := [("X-API-Version", "v9")];
     Worker.req_json := None |}.

(** A document whose v1 request leg does not compile. *)
Definition broken_request_document : TransformationConfig :=
  Demo.document [("v1", {| request := Some (Demo.plain "{ invalid syntax");
                           response := Some (Demo.plain "$");
                           targetVersion := Some "v2" |});
                 ("v2", Demo.current)].

(** An upstream that answers with a page of text. *)
Definition text_host : Host :=
  {| jsonata := jsonata Demo.host;
     evaluate := evaluate Demo.host;
     randomUUID := randomUUID Demo.host;
     toISOString := toISOString Demo.host;
     new_URL := new_URL Demo.host;
     fetch_upstream := fun _ =>
       (20%N,
        FetchResolves
          {| resp_status := 503;
             resp_headers := [("Content-Type", "text/html")];
             resp_text := "<h1>Service Unavailable</h1>";
             resp_json := None |}) |}.


(** GET /users with the header API-Version: constructor. *)
Definition get_users_constructor : Worker.Request :=
  {| Worker.req_url := {| Worker.pathname := "/users"; Worker.search := "";
                          Worker.searchParams := [] |};
     Worker.req_method := "GET";
     Worker.req_headers := [("API-Version", "constructor")];
     Worker.req_json := None |}.

(** GET /v9/users. *)
Definition get_v9_users : Worker.Request :=
  {| Worker.req_url := {| Worker.pathname := "/v9/users"; Worker.search := "";
                          Worker.searchParams := [] |};
     Worker.req_method := "GET";
     Worker.req_headers := [];
     Worker.req_json := None |}.

End Demo2.

(** The namespace holds no valid document under the configuration key: the
    read fails or finds nothing, or what it finds is empty, does not parse,
    or is rejected by [validateConfig]. *)
Definition no_valid_document (env : Env) : Prop :=
  forall kv cfg,
    kv_outcome (TRANSFORMATIONS env "config:main") = KvResolves (Some kv) ->
    kv_text kv <> "" ->
    kv_document kv = Some cfg ->
    ConfigLoader.validateConfig cfg <> None.

(** A text that every platform accepts as it stands as the value of a
    header: visible ASCII characters.  (The constructors of [Response] and
    [Request] throw on a header value they do not accept; the model takes
    the versions and ids it writes into headers as acceptable.) *)
Fixpoint header_value (s : string) : bool :=
  match s with
  | String c r =>
      (Nat.leb 33 (nat_of_ascii c) && Nat.leb (nat_of_ascii c) 126 && header_value r)%bool
  | EmptyString => true
  end.

(** The loader works for [env], and what it caches, if anything, is the
    built-in configuration. *)
Definition serves_builtin (env : Env) (w : World) : Prop :=
  loader_env (loader w) = env
  /\ forall c, loader_cache (loader w) = Some c ->
               exists stamp, config c = ConfigLoader.default_config stamp.

(* ================================================================== *)
(** * Properties *)
(* ================================================================== *)

(* ------------------------------------------------------------------ *)
(** ** The expression cache keeps its entries in order of last touch *)
(* ------------------------------------------------------------------ *)

Module CacheFacts.

Import ExpressionCache.

Lemma differs_true k x : differs k x = true <-> x <> k.
Proof.
  unfold differs. destruct (String.eqb_spec x k); simpl; split; congruence.
Qed.

Lemma filter_differs_notin k (l : list string) :
  ~ In k l -> filter (differs k) l = l.
Proof.
  induction l as [|x l IH]; simpl; intros H; [reflexivity|].
  destruct (differs k x) eqn:E.
  - f_equal. apply IH. tauto.
  - exfalso. unfold differs in E. destruct (String.eqb_spec x k); simpl in E; [|discriminate].
    subst. tauto.
Qed.

Lemma filter_differs_head k (l : list string) :
  NoDup (k :: l) -> filter (differs k) (k :: l) = l.
Proof.
  intros H. inversion H; subst. simpl. unfold differs at 1.
  rewrite String.eqb_refl. simpl. now apply filter_differs_notin.
Qed.

Lemma in_filter_differs k x (l : list string) :
  In x (filter (differs k) l) <-> In x l /\ x <> k.
Proof. rewrite filter_In, differs_true. tauto. Qed.

Section Maps.

Variable A : Type.
Implicit Types (m : JsMap A) (c : t A).

Lemma keys_map_delete k m :
  map fst (map_delete k m) = filter (differs k) (map fst m).
Proof.
  induction m as [|[x e] m IH]; simpl; [reflexivity|].
  unfold differs at 1. destruct (String.eqb x k); simpl; now rewrite ?IH.
Qed.

Lemma map_set_fresh k e m :
  ~ In k (map fst m) -> map_set k e m = (m ++ [(k, e)])%list.
Proof.
  induction m as [|[x e'] m IH]; simpl; intros H; [reflexivity|].
  destruct (String.eqb_spec x k); [subst; tauto|].
  f_equal. apply IH. tauto.
Qed.

Lemma map_get_some_in k m e : map_get k m = Some e -> In k (map fst m).
Proof.
  induction m as [|[x e'] m IH]; simpl; [discriminate|].
  destruct (String.eqb_spec x k); [subst; auto|]. intros H. right. auto.
Qed.

Lemma map_get_none_notin k m : map_get k m = None -> ~ In k (map fst m).
Proof.
  induction m as [|[x e'] m IH]; simpl; [tauto|].
  destruct (String.eqb_spec x k); [discriminate|].
  intros H [E|I]; [congruence|]. now apply IH.
Qed.

Lemma notin_filter_differs k (l : list string) : ~ In k (filter (differs k) l).
Proof. rewrite in_filter_differs. tauto. Qed.

Lemma keys_promote k e m :
  map fst (map_set k e (map_delete k m)) = (filter (differs k) (map fst m) ++ [k])%list.
Proof.
  rewrite map_set_fresh.
  - now rewrite map_app, keys_map_delete.
  - rewrite keys_map_delete. apply notin_filter_differs.
Qed.

Lemma existsb_eqb_false k (l : list string) :
  existsb (String.eqb k) l = false <-> ~ In k l.
Proof.
  induction l as [|x l IH]; simpl; [tauto|].
  rewrite orb_false_iff, IH. destruct (String.eqb_spec k x); split; intros; intuition congruence.
Qed.

End Maps.

(** *** Ages *)

Lemma age_head k log : age (k :: log) k = O.
Proof. simpl. now rewrite String.eqb_refl. Qed.

Lemma age_later k x log : x <> k -> age (k :: log) x = S (age log x).
Proof. intros H. simpl. destruct (String.eqb_spec k x); congruence. Qed.

(** *** Sorted lists *)

Lemma sorted_filter {B : Type} (R : B -> B -> Prop) (f : B -> bool) l :
  StronglySorted R l -> StronglySorted R (filter f l).
Proof.
  induction 1 as [|a l Hs IH Ha]; simpl; [constructor|].
  destruct (f a); [|assumption].
  constructor; [assumption|].
  rewrite Forall_forall in *. intros x Hx. apply Ha.
  apply filter_In in Hx. tauto.
Qed.

Lemma sorted_snoc {B : Type} (R : B -> B -> Prop) l a :
  StronglySorted R l -> Forall (fun x => R x a) l -> StronglySorted R (l ++ [a]).
Proof.
  induction 1 as [|b l Hs IH Hb]; simpl; intros Hall.
  - repeat constructor.
  - inversion Hall; subst. constructor; [auto|].
    apply Forall_app. split; [assumption|]. now repeat constructor.
Qed.

Lemma sorted_weaken {B : Type} (R R' : B -> B -> Prop) l :
  (forall x y, In x l -> In y l -> R x y -> R' x y) ->
  StronglySorted R l -> StronglySorted R' l.
Proof.
  intros H Hs. induction Hs as [|a l Hs IH Ha]; [constructor|].
  constructor.
  - apply IH. intros x y Hx Hy. apply H; now right.
  - rewrite Forall_forall in *. intros x Hx. apply H; [now left|now right|auto].
Qed.

(** *** The invariant along a run *)

Lemma ordered_filter log f ks :
  recency_ordered log ks -> recency_ordered log (filter f ks).
Proof.
  intros (Hnd & Hall & Hs). repeat split.
  - now apply NoDup_filter.
  - rewrite Forall_forall in *. intros x Hx. apply Hall. apply filter_In in Hx. tauto.
  - now apply sorted_filter.
Qed.

Lemma ordered_touch log k ks :
  k <> "" ->
  recency_ordered log ks ->
  recency_ordered (k :: log) (filter (differs k) ks ++ [k]).
Proof.
  intros Hk (Hnd & Hall & Hs). repeat split.
  - apply NoDup_app. repeat split.
    + now apply NoDup_filter.
    + repeat constructor. simpl. tauto.
    + intros x Hx [E|[]]. rewrite <- E in Hx. revert Hx. apply (notin_filter_differs k ks).
  - apply Forall_app. split.
    + rewrite Forall_forall in *. intros x Hx. apply in_filter_differs in Hx.
      destruct (Hall x) as [? ?]; [tauto|]. split; [assumption|]. now right.
    + constructor; [split; [assumption|now left]|constructor].
  - apply sorted_snoc.
    + apply sorted_weaken with (R := touched_before log).
      * intros x y Hx Hy. apply in_filter_differs in Hx, Hy.
        unfold touched_before. rewrite !age_later by tauto. lia.
      * now apply sorted_filter.
    + rewrite Forall_forall. intros x Hx. apply in_filter_differs in Hx.
      unfold touched_before. rewrite age_head, age_later by tauto. lia.
Qed.

Section Runs.

Variable A : Type.
Implicit Types (c : t A) (op : Op A).

Lemma get_answers now k c entry :
  map_get k (cache c) = Some entry ->
  now - cachedAt entry <= ttl entry ->
  get now k c
  = (Some (expression entry),
     {| cache := map_set k entry (map_delete k (cache c)); maxSize := maxSize c |}).
Proof.
  intros Hg Hfresh. unfold get. rewrite Hg.
  destruct (now - cachedAt entry >? ttl entry) eqn:E; [|reflexivity].
  apply Z.gtb_lt in E. lia.
Qed.

Lemma get_keys now k c :
  keys (snd (get now k c))
  = if hit now k c then (filter (differs k) (keys c) ++ [k])%list
    else filter (differs k) (keys c).
Proof.
  unfold hit, get, keys.
  destruct (map_get k (cache c)) as [entry|] eqn:Hg; simpl.
  - destruct (now - cachedAt entry >? ttl entry); simpl.
    + apply keys_map_delete.
    + apply keys_promote.
  - symmetry. apply filter_differs_notin. now apply map_get_none_notin.
Qed.

Lemma get_maxSize now k c : maxSize (snd (get now k c)) = maxSize c.
Proof.
  unfold get. destruct (map_get k (cache c)) as [entry|]; [|reflexivity].
  now destruct (now - cachedAt entry >? ttl entry).
Qed.

(** The keys after a [set] of a new key: the first key leaves when the
    cache is full, the new key goes last. *)
Lemma set_keys now k e ttl0 c :
  NoDup (keys c) ->
  Forall (fun x => x <> "") (keys c) ->
  ~ In k (keys c) ->
  keys (set now k e ttl0 c)
  = ((if size c >=? maxSize c then tl (keys c) else keys c) ++ [k])%list.
Proof.
  intros Hnd Hne Hk. unfold set, keys in *.
  destruct (size c >=? maxSize c).
  - destruct (cache c) as [|[x ex] m] eqn:Hc; cbn [map fst first_key tl] in *.
    + reflexivity.
    + inversion Hne; subst.
      assert (Js.truthy_string x = true) as ->.
      { unfold Js.truthy_string. destruct (String.eqb_spec x ""); [congruence|reflexivity]. }
      assert (map_delete x ((x, ex) :: m) = m) as ->.
      { unfold map_delete. simpl. rewrite String.eqb_refl. simpl.
        inversion Hnd; subst.
        clear - H3. induction m as [|[y ey] m IH]; simpl in *; [reflexivity|].
        destruct (String.eqb_spec y x); [subst; tauto|]. simpl. f_equal. apply IH. tauto. }
      rewrite map_set_fresh by (intros ?; apply Hk; now right).
      cbn [cache]. now rewrite map_app.
  - rewrite map_set_fresh by assumption. cbn [cache]. now rewrite map_app.
Qed.

Lemma set_maxSize now k e ttl0 c : maxSize (set now k e ttl0 c) = maxSize c.
Proof. reflexivity. Qed.

Lemma ordered_nonempty log ks :
  recency_ordered log ks -> NoDup ks /\ Forall (fun x => x <> "") ks.
Proof.
  intros (Hnd & Hall & _). split; [assumption|].
  rewrite Forall_forall in *. intros x Hx. now apply Hall.
Qed.

Lemma tl_is_filter (ks : list string) :
  NoDup ks -> tl ks = match ks with [] => [] | k :: _ => filter (differs k) ks end.
Proof.
  destruct ks as [|k r]; [reflexivity|]. intros H. simpl tl.
  symmetry. now apply filter_differs_head.
Qed.

Lemma step_ordered op c log :
  admissible op c = true ->
  recency_ordered log (keys c) ->
  recency_ordered (snd (step op (c, log))) (keys (fst (step op (c, log)))).
Proof.
  intros Hadm Hinv. destruct op as [now k|now k e ttl0]; simpl.
  - rewrite get_keys. destruct (hit now k c) eqn:Hh.
    + apply ordered_touch; [|assumption].
      unfold hit, get in Hh.
      destruct (map_get k (cache c)) as [entry|] eqn:Hg; [|discriminate].
      apply map_get_some_in in Hg. destruct Hinv as (_ & Hall & _).
      rewrite Forall_forall in Hall. now apply Hall.
    + now apply ordered_filter.
  - simpl in Hadm. apply andb_true_iff in Hadm as [Hk Hfresh].
    apply negb_true_iff, existsb_eqb_false in Hfresh.
    assert (k <> "") as Hk'.
    { unfold Js.truthy_string in Hk. destruct (String.eqb_spec k ""); [discriminate|assumption]. }
    destruct (ordered_nonempty _ _ Hinv) as [Hnd Hne].
    rewrite set_keys by assumption.
    destruct (size c >=? maxSize c).
    + rewrite tl_is_filter by assumption.
      destruct (keys c) as [|x r] eqn:Hks.
      * rewrite <- (filter_differs_notin k []) by (simpl; tauto).
        now apply ordered_touch.
      * rewrite <- (filter_differs_notin k (filter (differs x) (x :: r))).
        -- apply ordered_touch; [assumption|]. now apply ordered_filter.
        -- rewrite in_filter_differs. tauto.
    + rewrite <- (filter_differs_notin k (keys c)) by assumption.
      now apply ordered_touch.
Qed.

Lemma step_maxSize op c log : maxSize (fst (step op (c, log))) = maxSize c.
Proof. destruct op; simpl; [apply get_maxSize|reflexivity]. Qed.

Lemma run_ordered ops : forall c log c' log',
  recency_ordered log (keys c) ->
  run ops (c, log) = Some (c', log') ->
  recency_ordered log' (keys c') /\ maxSize c' = maxSize c.
Proof.
  induction ops as [|op ops IH]; intros c log c' log' Hinv Hrun; simpl in Hrun.
  - inversion Hrun; subst. auto.
  - destruct (admissible op c) eqn:Hadm; [|discriminate].
    pose proof (step_ordered op c log Hadm Hinv) as Hstep.
    pose proof (step_maxSize op c log) as Hmax.
    destruct (step op (c, log)) as [c1 log1]. simpl in *.
    destruct (IH _ _ _ _ Hstep Hrun) as [H1 H2]. split; [assumption|congruence].
Qed.

Lemma new_ordered (n : option Z) : recency_ordered [] (keys (@new A n)).
Proof. repeat split; simpl; constructor. Qed.

Lemma size_keys c : size c = Z.of_nat (List.length (keys c)).
Proof. unfold size, keys. now rewrite length_map. Qed.

Lemma length_filter_differs k (ks : list string) :
  NoDup ks -> In k ks -> S (List.length (filter (differs k) ks)) = List.length ks.
Proof.
  induction ks as [|x ks IH]; intros Hnd Hin; [destruct Hin|].
  inversion Hnd; subst. destruct Hin as [->|Hin].
  - rewrite filter_differs_head by assumption. reflexivity.
  - simpl. assert (differs k x = true) as ->.
    { apply differs_true. intros ->. contradiction. }
    simpl. f_equal. now apply IH.
Qed.

(** C7.  Take any run of an expression cache of capacity [N >= 1] whose
    [set] calls insert new entries, and let [c] be the cache and [log] the
    touches it ends with.
    - A [get] that finds a live entry answers with it and makes its key the
      last of the order, the most recently touched of all keys.
    - When [c] holds [N] entries, a [set] of one more key removes exactly
      one entry, the one touched longest ago, and keeps all others.
    - So with [N >= 2] an entry that a [get] touched just before the [set]
      survives it, wherever it stood in the order of insertion. *)
Theorem lru_evicts_least_recently_touched
        (N : Z) (ops : list (Op A)) (c : t A) (log : list string) :
  1 <= N ->
  run ops (new (Some N), []) = Some (c, log) ->
  (forall now k entry,
      map_get k (cache c) = Some entry ->
      now - cachedAt entry <= ttl entry ->
      fst (get now k c) = Some (expression entry)
      /\ keys (snd (get now k c)) = (filter (differs k) (keys c) ++ [k])%list
      /\ forall k2, In k2 (keys (snd (get now k c))) -> k2 <> k ->
                    (age (k :: log) k < age (k :: log) k2)%nat)
  /\ (size c = N ->
      forall now k' e ttl0,
        k' <> "" -> ~ In k' (keys c) ->
        exists victim,
          In victim (keys c)
          /\ (forall k, In k (keys c) -> k <> victim ->
                        (age log k < age log victim)%nat)
          /\ (forall k, In k (keys (set now k' e ttl0 c))
                        <-> k = k' \/ (In k (keys c) /\ k <> victim))
          /\ size (set now k' e ttl0 c) = N)
  /\ (size c = N -> 2 <= N ->
      forall now k entry now' k' e ttl0,
        map_get k (cache c) = Some entry ->
        now - cachedAt entry <= ttl entry ->
        k' <> "" -> ~ In k' (keys c) ->
        In k (keys (set now' k' e ttl0 (snd (get now k c))))).
Proof.
  intros HN Hrun.
  destruct (run_ordered ops _ _ _ _ (new_ordered (Some N)) Hrun) as [Hinv Hmax].
  simpl in Hmax.
  destruct (ordered_nonempty _ _ Hinv) as [Hnd Hne].
  assert (Hhit : forall now k entry,
             map_get k (cache c) = Some entry -> now - cachedAt entry <= ttl entry ->
             hit now k c = true).
  { intros now k entry Hg Hf. unfold hit. now rewrite (get_answers now k c entry Hg Hf). }
  split; [|split].
  - intros now k entry Hg Hf. split; [|split].
    + now rewrite (get_answers now k c entry Hg Hf).
    + rewrite get_keys. now rewrite (Hhit now k entry Hg Hf).
    + intros k2 _ Hk2. rewrite age_head, age_later by congruence. lia.
  - intros Hfull now k' e ttl0 Hk' Hfresh.
    pose proof (set_keys now k' e ttl0 c Hnd Hne Hfresh) as Hkeys.
    assert ((size c >=? maxSize c) = true) as Hge by (apply Z.geb_le; lia).
    rewrite Hge in Hkeys.
    rewrite size_keys in Hfull.
    destruct (keys c) as [|victim rest] eqn:Hks; [simpl in Hfull; lia|].
    exists victim. split; [now left|]. split; [|split].
    + intros k [->|Hin] Hneq; [congruence|].
      destruct Hinv as (_ & _ & Hs). inversion Hs as [|? ? _ Hall]; subst.
      rewrite Forall_forall in Hall. now apply Hall.
    + intros k. rewrite Hkeys. simpl tl. rewrite in_app_iff. simpl.
      inversion Hnd; subst. split.
      * intros [Hin|[->|[]]]; [right|now left].
        split; [now right|]. intros ->. contradiction.
      * intros [->|[[->|Hin] Hneq]]; [right; now left|congruence|now left].
    + rewrite size_keys, Hkeys. simpl tl. rewrite length_app.
      change (List.length (victim :: rest)) with (S (List.length rest)) in Hfull.
      change (List.length [k']) with 1%nat. lia.
  - intros Hfull HN2 now k entry now' k' e ttl0 Hg Hf Hk' Hfresh.
    pose proof (map_get_some_in A k (cache c) entry Hg) as Hin. fold (keys c) in Hin.
    pose proof (step_ordered (OpGet now k) c log eq_refl Hinv) as Hinv1.
    simpl in Hinv1. rewrite (Hhit now k entry Hg Hf) in Hinv1.
    destruct (ordered_nonempty _ _ Hinv1) as [Hnd1 Hne1].
    assert (Hkeys1 : keys (snd (get now k c)) = (filter (differs k) (keys c) ++ [k])%list).
    { rewrite get_keys. now rewrite (Hhit now k entry Hg Hf). }
    assert (Hfresh1 : ~ In k' (keys (snd (get now k c)))).
    { rewrite Hkeys1, in_app_iff, in_filter_differs. simpl.
      intros [[? ?]|[->|[]]]; contradiction. }
    rewrite (set_keys now' k' e ttl0 _ Hnd1 Hne1 Hfresh1).
    pose proof (length_filter_differs k (keys c) Hnd Hin) as Hlen.
    rewrite size_keys in Hfull.
    assert ((size (snd (get now k c)) >=? maxSize (snd (get now k c))) = true) as ->.
    { rewrite get_maxSize, size_keys, Hkeys1, length_app.
      change (List.length [k]) with 1%nat. apply Z.geb_le. lia. }
    rewrite Hkeys1.
    destruct (filter (differs k) (keys c)) as [|y r]; [simpl in Hlen; lia|].
    simpl. rewrite !in_app_iff. left. right. now left.
Qed.

End Runs.

(** Capacity 2: "a" then "b" are inserted, a [get] touches "a", and "c"
    comes in.  The oldest insertion "a" is still there, "b" is gone. *)
Lemma lru_evicts_least_recently_touched_witness :
  let c := {| cache := [("a", {| expression := 1%nat; cachedAt := 0; ttl := 1000 |});
                        ("b", {| expression := 2%nat; cachedAt := 1; ttl := 1000 |})];
              maxSize := 2 |} in
  In "a" (keys (set 9 "c" 3%nat 1000 (snd (get 2 "a" c))))
  /\ ~ In "b" (keys (set 9 "c" 3%nat 1000 (snd (get 2 "a" c)))).
Proof.
  intros c.
  destruct (lru_evicts_least_recently_touched nat 2
              [OpSet 0 "a" 1%nat 1000; OpSet 1 "b" 2%nat 1000] c ["b"; "a"])
    as (_ & _ & Hsurvives); [lia|reflexivity|].
  split.
  - apply (Hsurvives eq_refl ltac:(lia) 2 "a"
             {| expression := 1%nat; cachedAt := 0; ttl := 1000 |} 9 "c" 3%nat 1000);
      [reflexivity|simpl; lia|discriminate|].
    simpl. intros [H|[H|[]]]; discriminate.
  - vm_compute. intros [H|[H|[]]]; discriminate.
Defined.

End CacheFacts.

(* ------------------------------------------------------------------ *)
(** ** The transformation engine *)
(* ------------------------------------------------------------------ *)

(** How the combinators run. *)
Lemma run_bind {A B : Type} (m : M A) (k : A -> M B) (w : World) :
  bind m k w
  = match m w with
    | (Normal a, w') => k a w'
    | (Abrupt e, w') => (Abrupt e, w')
    end.
Proof. reflexivity. Qed.

Lemma run_try {A : Type} (body : M A) (handler : Thrown -> M A) (w : World) :
  try_catch body handler w
  = match body w with
    | (Normal a, w') => (Normal a, w')
    | (Abrupt e, w') => handler e w'
    end.
Proof. reflexivity. Qed.

Module EngineFacts.

Import JsonataTransformer.

Section Engine.

Variable host : Host.

(** [compileExpression] returns an expression object or throws an error
    with a text; it does not take time. *)
Lemma compileExpression_cases e ttl0 w :
  (exists c w', compileExpression host e ttl0 w = (Normal c, w') /\ clock w' = clock w
                /\ defaultTimeout (transformer w') = defaultTimeout (transformer w))
  \/ (exists err w', compileExpression host e ttl0 w = (Abrupt err, w')
                     /\ error_message err <> "" /\ clock w' = clock w).
Proof.
  unfold compileExpression, property, bind, cache_get, cache_set, try_catch, throw, ret, log.
  destruct e as [source|]; simpl.
  - destruct (fst (ExpressionCache.get (clock w) (cacheKey source)
                     (expressionCache (transformer w)))) as [c|]; simpl.
    + left. eauto.
    + destruct (jsonata host source) as [err|]; simpl.
      * right. do 2 eexists. split; [reflexivity|]. split; [|reflexivity].
        simpl. discriminate.
      * left. eauto.
  - right. do 2 eexists. split; [reflexivity|]. split; [|reflexivity].
    simpl. discriminate.
Qed.



Lemma map_get_set_same {B : Type} k (e : ExpressionCache.CacheEntry B) m :
  ExpressionCache.map_get k (ExpressionCache.map_set k e m) = Some e.
Proof.
  induction m as [|[x ex] m IH]; simpl.
  - now rewrite String.eqb_refl.
  - destruct (String.eqb x k) eqn:E; simpl; rewrite E; [reflexivity|assumption].
Qed.

(** C1, on the code.  Two different sources with the same first 100
    characters get the same cache key: once the first is compiled, compiling
    the second answers with the expression object of the first. *)
Theorem prefix_key_serves_other_expression s1 s2 ttl1 ttl2 w :
  s1 <> s2 ->
  String.substring 0 100 s1 = String.substring 0 100 s2 ->
  jsonata host s1 = None ->
  ExpressionCache.map_get (cacheKey s1)
    (ExpressionCache.cache (expressionCache (transformer w))) = None ->
  0 <= ttl1 ->
  fst (bind (compileExpression host (Some s1) (Some ttl1))
            (fun _ => compileExpression host (Some s2) ttl2) w)
  = Normal {| compiled_from := s1 |}.
Proof.
  intros _ Hprefix Hcompiles Hmiss Httl.
  assert (Hkey : cacheKey s2 = cacheKey s1) by (unfold cacheKey; now rewrite Hprefix).
  unfold compileExpression, property, bind, cache_get, cache_set, try_catch, ret, log.
  simpl. rewrite Hkey.
  unfold ExpressionCache.get at 1 2. rewrite Hmiss. simpl. rewrite Hcompiles. simpl.
  unfold ExpressionCache.get, ExpressionCache.set. simpl.
  rewrite map_get_set_same. simpl.
  replace (clock w - clock w >? ttl1) with false
    by (symmetry; rewrite Z.gtb_ltb; apply Z.ltb_ge; lia).
  reflexivity.
Qed.

(** C2, on the code.  An evaluation that returns a value makes [transform]
    succeed with that value, also when it kept the thread for longer than
    the timeout in force: no outcome carries the timeout error. *)
Theorem transform_ignores_timeout input te ctx w c w1 v :
  compileExpression host (expression te)
    (Some (Js.number_or (cacheTtl te) 3600 * 1000)) w = (Normal c, w1) ->
  returned (evaluate host (compiled_from c) input) = ReturnsValue v ->
  Js.number_or (ctx_timeout ctx) (defaultTimeout (transformer w))
  < Z.of_N (busy_ms (evaluate host (compiled_from c) input)) ->
  exists w',
    transform host input te ctx w
    = (Normal {| data := v; success := true; error := None;
                 metrics :=
                   Some (metrics_of
                           (Z.of_N (busy_ms (evaluate host (compiled_from c) input)))
                           ctx) |},
       w').
Proof.
  intros Hc Hv _. unfold transform. rewrite run_bind. unfold Date_now at 1.
  cbv beta iota. rewrite run_try, run_bind, Hc, run_bind.
  destruct (compileExpression_cases (expression te)
              (Some (Js.number_or (cacheTtl te) 3600 * 1000)) w)
    as [(c' & w1' & Hc' & Hclk & _)|(err & w1' & Hc' & _)]; [|congruence].
  assert (w1' = w1) as -> by congruence.
  unfold executeWithTimeout, bind, setTimeout, elapse, clearTimeout, log, ret, Date_now.
  simpl. rewrite Hv. simpl. rewrite Hclk.
  replace (clock w + Z.of_N (busy_ms (evaluate host (compiled_from c) input)) - clock w)
    with (Z.of_N (busy_ms (evaluate host (compiled_from c) input))) by lia.
  eexists. reflexivity.
Qed.

End Engine.

Lemma prefix_key_serves_other_expression_witness :
  fst (bind (compileExpression Demo.host (Some Demo.long_source_1) (Some 3600000))
            (fun _ => compileExpression Demo.host (Some Demo.long_source_2) (Some 3600000))
            (Demo.world (Demo.env_with Demo.failing_store)))
  = Normal {| compiled_from := Demo.long_source_1 |}.
Proof.
  apply (prefix_key_serves_other_expression Demo.host Demo.long_source_1
           Demo.long_source_2 3600000 (Some 3600000)
           (Demo.world (Demo.env_with Demo.failing_store))).
  - vm_compute. discriminate.
  - vm_compute. reflexivity.
  - reflexivity.
  - reflexivity.
  - lia.
Defined.



(** An evaluation of 1000 ms under the default timeout of 50 ms. *)
Lemma transform_ignores_timeout_witness :
  exists w',
    transform Demo.host (JNum 5) (Demo.plain "$spin()") Demo.context_v1
      (Demo.world (Demo.env_with Demo.failing_store))
    = (Normal {| data := JStr "late"; success := true; error := None;
                 metrics := Some (metrics_of 1000 Demo.context_v1) |},
       w').
Proof.
  refine (transform_ignores_timeout Demo.host (JNum 5) (Demo.plain "$spin()")
            Demo.context_v1 (Demo.world (Demo.env_with Demo.failing_store))
            {| compiled_from := "$spin()" |} _ (JStr "late") _ _ _).
  - vm_compute. reflexivity.
  - reflexivity.
  - vm_compute. reflexivity.
Defined.

End EngineFacts.

(* ------------------------------------------------------------------ *)
(** ** The configuration loader *)
(* ------------------------------------------------------------------ *)

Module LoaderFacts.

Import ConfigLoader.

Lemma validate_entries_none entries :
  validate_entries entries = None
  <-> existsb (fun p => entry_incomplete (snd p)) entries = false.
Proof.
  induction entries as [|[v t] entries IH]; simpl; [tauto|].
  unfold entry_incomplete at 1, missing. simpl.
  destruct (request t) as [rq|], (response t) as [rs|]; simpl;
    try (split; discriminate).
  destruct (negb (truthy_opt (expression rq)) || negb (truthy_opt (expression rs)))%bool;
    simpl; [split; discriminate|exact IH].
Qed.

(** [validateConfig] throws exactly on the documents of [invalid_document]. *)
Lemma validateConfig_none c :
  validateConfig c = None <-> invalid_document c = false.
Proof.
  unfold validateConfig, invalid_document, missing.
  destruct (negb (truthy_opt (version c))); simpl; [split; discriminate|].
  destruct (negb (truthy_opt (defaultVersion c))); simpl; [split; discriminate|].
  destruct (transformations c) as [entries|]; [|split; discriminate].
  apply validate_entries_none.
Qed.

Section Loader.

Variable host : Host.

(** A loader without a cached document that reads a document from the
    namespace returns it when [validateConfig] accepts it, and the built-in
    configuration otherwise; what it returns is what it caches. *)
Lemma loadConfig_reads_document w ms v cfg :
  loader_cache (loader w) = None ->
  TRANSFORMATIONS (loader_env (loader w)) "config:main"
  = {| kv_ms := ms; kv_outcome := KvResolves (Some v) |} ->
  kv_text v <> "" ->
  kv_document v = Some cfg ->
  exists w',
    loadConfig host w
    = (Normal (if invalid_document cfg
               then default_config (toISOString host (clock w + Z.of_N ms))
               else cfg), w')
    /\ cached_document w'
       = Some (if invalid_document cfg
               then default_config (toISOString host (clock w + Z.of_N ms))
               else cfg).
Proof.
  intros Hcache Hstore Htext Hdoc.
  assert (Js.truthy_string (kv_text v) = true) as Htruthy.
  { unfold Js.truthy_string. destruct (String.eqb_spec (kv_text v) ""); [congruence|reflexivity]. }
  unfold loadConfig. rewrite Hcache.
  unfold load_uncached, loadFromKV, kv_get, cacheConfig, set_cache, getDefaultConfig, cached_document,
    bind, try_catch, ret, log, throw, Date_now.
  simpl. rewrite Hstore. simpl. rewrite Htruthy, Hdoc.
  destruct (invalid_document cfg) eqn:Hinv.
  - destruct (validateConfig cfg) as [e|] eqn:Hval.
    + simpl. eexists. split; reflexivity.
    + apply validateConfig_none in Hval. congruence.
  - apply validateConfig_none in Hinv. rewrite Hinv. simpl.
    eexists. split; reflexivity.
Qed.

(** C4, as amended.  Take a document read from the namespace by a loader
    with nothing cached.  [validateConfig] throws exactly when the schema
    version or the default version is missing, the map of transformations is
    missing, or an entry lacks a leg or the expression text of a leg.  A
    document it throws on is dropped as a whole: [loadConfig] returns and
    caches the built-in configuration.  A document it accepts is returned
    and cached as it is, and a document with an empty map of transformations
    is among those. *)
Theorem invalid_document_rejected_wholesale w ms v cfg :
  loader_cache (loader w) = None ->
  TRANSFORMATIONS (loader_env (loader w)) "config:main"
  = {| kv_ms := ms; kv_outcome := KvResolves (Some v) |} ->
  kv_text v <> "" ->
  kv_document v = Some cfg ->
  (validateConfig cfg <> None <-> invalid_document cfg = true)
  /\ (invalid_document cfg = true ->
      exists w',
        loadConfig host w
        = (Normal (default_config (toISOString host (clock w + Z.of_N ms))), w')
        /\ cached_document w'
           = Some (default_config (toISOString host (clock w + Z.of_N ms))))
  /\ (invalid_document cfg = false ->
      exists w', loadConfig host w = (Normal cfg, w') /\ cached_document w' = Some cfg)
  /\ (missing (version cfg) = false -> missing (defaultVersion cfg) = false ->
      transformations cfg = Some [] -> invalid_document cfg = false).
Proof.
  intros Hcache Hstore Htext Hdoc.
  destruct (loadConfig_reads_document w ms v cfg Hcache Hstore Htext Hdoc)
    as (w' & Hload & Hcached).
  split; [|split; [|split]].
  - pose proof (validateConfig_none cfg) as H.
    destruct (invalid_document cfg), (validateConfig cfg); split; intros; try congruence.
    + destruct H as [H _]. specialize (H eq_refl). discriminate.
    + destruct H as [_ H]. specialize (H eq_refl). discriminate.
  - intros Hinv. rewrite Hinv in *. eauto.
  - intros Hinv. rewrite Hinv in *. eauto.
  - intros Hv Hd Ht. unfold invalid_document. now rewrite Hv, Hd, Ht.
Qed.

(** The default configuration passes [validateConfig]. *)
Lemma default_config_valid stamp : validateConfig (default_config stamp) = None.
Proof. reflexivity. Qed.

Lemma truthy_string_true (t : string) : t <> "" -> Js.truthy_string t = true.
Proof.
  intros H. unfold Js.truthy_string. destruct (String.eqb_spec t ""); [congruence|reflexivity].
Qed.






(** *** References into the namespace *)



Lemma loadConfig_cached w c ttl0 :
  loader_cache (loader w) = Some c ->
  config_ttl c = Some ttl0 ->
  clock w - config_cachedAt c < ttl0 ->
  loadConfig host w
  = (Normal (config c),
     with_logs ({| log_level := LDebug; log_message := "Using cached configuration";
                   log_args := [] |} :: logs w) w).
Proof.
  intros Hc Httl Hfresh. unfold loadConfig. rewrite run_bind, Hc.
  unfold isCacheValid, bind, Date_now, ret, log. simpl. rewrite Httl.
  apply Z.ltb_lt in Hfresh. now rewrite Hfresh.
Qed.






End Loader.

Lemma invalid_document_rejected_wholesale_witness :
  (validateConfig Demo.empty_map_document <> None
   <-> invalid_document Demo.empty_map_document = true)
  /\ (invalid_document Demo.empty_map_document = false ->
      exists w',
        loadConfig Demo.host
          (Demo.world (Demo.env_with (Demo.store_with Demo.empty_map_document)))
        = (Normal Demo.empty_map_document, w')
        /\ cached_document w' = Some Demo.empty_map_document).
Proof.
  destruct (invalid_document_rejected_wholesale Demo.host
              (Demo.world (Demo.env_with (Demo.store_with Demo.empty_map_document)))
              3%N
              {| kv_text := "(the text of the document)";
                 kv_document := Some Demo.empty_map_document |}
              Demo.empty_map_document)
    as (H1 & _ & H3 & _).
  - reflexivity.
  - reflexivity.
  - simpl. discriminate.
  - reflexivity.
  - split; [exact H1|exact H3].
Defined.

(** C4 as stated fails: a document with an empty map of transformations is
    invalid in the words of the specification, and yet [validateConfig]
    accepts it and [loadConfig] returns it, not the built-in
    configuration. *)
Lemma empty_map_document_is_accepted :
  spec_invalid Demo.empty_map_document = true
  /\ validateConfig Demo.empty_map_document = None
  /\ fst (loadConfig Demo.host
            (Demo.world (Demo.env_with (Demo.store_with Demo.empty_map_document))))
     = Normal Demo.empty_map_document
  /\ forall stamp, Demo.empty_map_document <> default_config stamp.
Proof.
  repeat split; try reflexivity. intros stamp. discriminate.
Qed.





End LoaderFacts.

(* ------------------------------------------------------------------ *)
(** ** The request handler *)
(* ------------------------------------------------------------------ *)

Module WorkerFacts.

Import Worker.

Lemma take_digits_all digits rest :
  Js.all_digits digits = true ->
  match rest with String c _ => Js.is_digit c = false | EmptyString => True end ->
  take_digits (digits ++ rest) = (digits, rest).
Proof.
  intros Hd Hrest. induction digits as [|c digits IH]; simpl in *.
  - destruct rest as [|c r]; [reflexivity|]. simpl. now rewrite Hrest.
  - apply andb_true_iff in Hd as [Hc Hd]. rewrite Hc, (IH Hd). reflexivity.
Qed.

(** The pattern of the path: a first segment "v" and digits, and a slash
    after it. *)
Lemma path_version_matches digits rest :
  digits <> "" ->
  Js.all_digits digits = true ->
  path_version ("/v" ++ digits ++ "/" ++ rest) = Some ("v" ++ digits).
Proof.
  intros Hne Hd. unfold path_version. simpl.
  rewrite (take_digits_all digits (String "/" rest) Hd) by reflexivity. simpl.
  unfold Js.truthy_string. destruct (String.eqb_spec digits ""); [congruence|].
  simpl. now destruct rest.
Qed.

Lemma path_version_truthy pathname v :
  path_version pathname = Some v -> Js.truthy_string v = true.
Proof.
  unfold path_version. destruct pathname as [|a [|b r]]; try discriminate.
  - destruct a as [[] [] [] [] [] [] [] []]; discriminate.
  - destruct a as [[] [] [] [] [] [] [] []]; try discriminate;
      destruct b as [[] [] [] [] [] [] [] []]; try discriminate.
    destruct (Js.truthy_string (fst (take_digits r)) && prefix "/" (snd (take_digits r)))%bool;
      [|discriminate].
    intros [= <-]. reflexivity.
Qed.

Lemma parseRequestContext_total request rid w :
  exists ctx w',
    parseRequestContext request rid w = (Normal ctx, w')
    /\ apiVersion ctx = detect_version request
    /\ requestId ctx = rid
    /\ (body ctx = JNull \/ req_json request = Some (body ctx)).
Proof.
  unfold parseRequestContext, bind, ret, log.
  destruct (negb (String.eqb (req_method request) "GET")
            && negb (String.eqb (req_method request) "HEAD")
            && is_json (headers_get "content-type" (req_headers request)))%bool.
  - destruct (req_json request) as [v|]; simpl; do 2 eexists; repeat split; auto.
  - do 2 eexists. repeat split. auto.
Qed.

(** C8.  The version of a request context is the header's (API-Version,
    else X-API-Version) when there is one, else the query parameter's
    (api-version, else version) when there is one, else the version the
    first segment of the path names, else the empty string.  So a request
    with the header API-Version: v1 gets v1, whatever its query and its path
    say; and with no header and no query parameter a path that starts with
    "/v", digits and a slash gives "v" and those digits. *)
Theorem version_detection_precedence request rid w :
  exists ctx w',
    parseRequestContext request rid w = (Normal ctx, w')
    /\ apiVersion ctx
       = (let versionHeader :=
            or_else (headers_get "API-Version" (req_headers request))
                    (headers_get "X-API-Version" (req_headers request)) in
          let versionParam :=
            or_else (ConfigLoader.assoc "api-version" (searchParams (req_url request)))
                    (ConfigLoader.assoc "version" (searchParams (req_url request))) in
          if truthy_opt versionHeader then render versionHeader
          else if truthy_opt versionParam then render versionParam
          else match path_version (pathname (req_url request)) with
               | Some v => v
               | None => ""
               end)
    /\ (headers_get "API-Version" (req_headers request) = Some "v1" ->
        apiVersion ctx = "v1")
    /\ (forall digits rest,
          headers_get "API-Version" (req_headers request) = None ->
          headers_get "X-API-Version" (req_headers request) = None ->
          searchParams (req_url request) = [] ->
          pathname (req_url request) = "/v" ++ digits ++ "/" ++ rest ->
          digits <> "" -> Js.all_digits digits = true ->
          apiVersion ctx = "v" ++ digits).
Proof.
  destruct (parseRequestContext_total request rid w) as (ctx & w' & Hrun & Hv & _).
  exists ctx, w'. split; [exact Hrun|].
  assert (Hchain :
    detect_version request
    = (let versionHeader :=
         or_else (headers_get "API-Version" (req_headers request))
                 (headers_get "X-API-Version" (req_headers request)) in
       let versionParam :=
         or_else (ConfigLoader.assoc "api-version" (searchParams (req_url request)))
                 (ConfigLoader.assoc "version" (searchParams (req_url request))) in
       if truthy_opt versionHeader then render versionHeader
       else if truthy_opt versionParam then render versionParam
       else match path_version (pathname (req_url request)) with
            | Some v => v
            | None => ""
            end)).
  { unfold detect_version.
    pose proof (path_version_truthy (pathname (req_url request))) as Hp.
    set (h := or_else (headers_get "API-Version" (req_headers request))
                      (headers_get "X-API-Version" (req_headers request))).
    set (q := or_else (ConfigLoader.assoc "api-version" (searchParams (req_url request)))
                      (ConfigLoader.assoc "version" (searchParams (req_url request)))).
    set (p := path_version (pathname (req_url request))) in *.
    clearbody h q p. cbv zeta.
    destruct h as [hs|], q as [qs|], p as [ps|];
      try (pose proof (Hp _ eq_refl) as Hps);
      unfold or_else, truthy_opt, render; simpl;
      repeat (match goal with
              | |- context [Js.truthy_string ?x] =>
                  destruct (Js.truthy_string x) eqn:?; simpl
              end);
      try congruence; reflexivity. }
  split; [now rewrite Hv|]. split.
  - intros Hheader. rewrite Hv, Hchain. cbv zeta. rewrite Hheader. reflexivity.
  - intros digits rest Hh1 Hh2 Hq Hpath Hne Hd.
    rewrite Hv, Hchain. cbv zeta. rewrite Hh1, Hh2, Hq, Hpath.
    rewrite (path_version_matches digits rest Hne Hd). reflexivity.
Qed.

Section Handler.

Variable host : Host.


Lemma received_status r : resp_status (received r) = resp_status r.
Proof. unfold received. now destruct (null_body_status (resp_status r)). Qed.

(** An answer that came with a JSON value has a status that allows a body. *)
Lemma forwarded_with_body request env ctx upstreamBody w up w' payload :
  forward host request env ctx upstreamBody w = (Normal up, w') ->
  resp_json up = Some payload ->
  null_body_status (resp_status up) = false.
Proof.
  unfold forward. destruct (new_URL host _ _) as [e|address]; [discriminate|].
  cbv beta zeta.
  destruct (snd (fetch_upstream host _)) as [e|u]; [discriminate|].
  intros [= <- _]. unfold received.
  destruct (null_body_status (resp_status u)) eqn:E; simpl; [discriminate|].
  now rewrite E.
Qed.

(** C3.  Take a request that passed the checks of the handler, whose
    request leg handed a body on and whose upstream answer is JSON.  When
    the transformation of the response leg fails, for whatever reason, the
    handler answers with the upstream's status and the upstream's JSON value
    as it came. *)
Theorem response_failure_passes_upstream_through
        request env w ctx cfg av vt w2 upstreamBody w3 up w4 leg payload r :
  prepare host request env (randomUUID host (uuid_seq w))
          (with_uuid_seq (S (uuid_seq w)) w)
  = (Normal (Ready ctx cfg av vt), w2) ->
  request_leg host ctx cfg av vt w2 = (Normal (Continue upstreamBody), w3) ->
  forward host request env ctx upstreamBody w3 = (Normal up, w4) ->
  is_json (headers_get "content-type" (resp_headers up)) = true ->
  resp_json up = Some payload ->
  response vt = Some leg ->
  fst (JsonataTransformer.transform host payload leg
         {| ctx_fromVersion := upstreamVersion cfg; ctx_toVersion := av;
            ctx_direction := DirResponse; ctx_timeout := None |} w4) = Normal r ->
  success r = false ->
  exists w',
    fetch host request env w
    = (Normal {| status := resp_status up;
                 resp_headers_out :=
                   [("Content-Type", "application/json");
                    ("X-API-Version", render av);
                    ("X-Upstream-Version", render (upstreamVersion cfg));
                    ("X-Request-ID", requestId ctx);
                    ("X-Powered-By", "JSONata-API-Gateway");
                    ("Access-Control-Allow-Origin", "*")];
                 resp_body := BodyJson payload |},
       w').
Proof.
  intros Hprep Hreq Hfwd Hjson Hpayload Hleg Hrun Hfail.
  pose proof (forwarded_with_body request env ctx upstreamBody w3 up w4 payload
                Hfwd Hpayload) as Hstatus.
  unfold fetch. rewrite run_bind. unfold draw_uuid at 1. cbv beta iota.
  rewrite run_try. unfold handle.
  rewrite run_bind, Hprep, run_bind, Hreq, run_bind, Hfwd.
  unfold response_leg, json_Response. rewrite Hjson, Hpayload, Hstatus. cbn [andb].
  rewrite run_bind.
  destruct (truthy payload && negb (strict_eq av (upstreamVersion cfg)))%bool.
  - rewrite run_bind. unfold property at 1. rewrite Hleg. unfold ret at 1.
    destruct (negb (strict_eq (expression leg) (Some "$"))).
    + rewrite run_bind.
      destruct (JsonataTransformer.transform host payload leg
                  {| ctx_fromVersion := upstreamVersion cfg; ctx_toVersion := av;
                     ctx_direction := DirResponse; ctx_timeout := None |} w4)
        as [[r'|e] w5]; simpl in Hrun; [|discriminate].
      injection Hrun as ->. rewrite Hfail. simpl. eexists. reflexivity.
    + eexists. reflexivity.
  - eexists. reflexivity.
Qed.

End Handler.


Lemma response_failure_passes_upstream_through_witness :
  exists w',
    fetch Demo.host (Demo.post_users (Some (JObj [("user_id", JNum 1)])))
      (Demo.env_with (Demo.store_with Demo.broken_response_document))
      (Demo.world (Demo.env_with (Demo.store_with Demo.broken_response_document)))
    = (Normal {| status := 200;
                 resp_headers_out :=
                   [("Content-Type", "application/json");
                    ("X-API-Version", "v1");
                    ("X-Upstream-Version", "v2");
                    ("X-Request-ID", "request-0");
                    ("X-Powered-By", "JSONata-API-Gateway");
                    ("Access-Control-Allow-Origin", "*")];
                 resp_body := BodyJson (JObj [("id", JNum 1); ("name", JStr "A")]) |},
       w').
Proof.
  refine (response_failure_passes_upstream_through Demo.host
            (Demo.post_users (Some (JObj [("user_id", JNum 1)])))
            (Demo.env_with (Demo.store_with Demo.broken_response_document))
            (Demo.world (Demo.env_with (Demo.store_with Demo.broken_response_document)))
            {| url := {| pathname := "/users"; search := ""; searchParams := [] |};
               method := "POST";
               headers := [("API-Version", "v1"); ("Content-Type", "application/json")];
               apiVersion := "v1";
               path := "/users";
               body := JObj [("user_id", JNum 1)];
               requestId := "request-0" |}
            Demo.broken_response_document (Some "v1")
            {| request := Some (Demo.plain "{ id: user_id }");
               response := Some (Demo.plain "{ invalid syntax");
               targetVersion := Some "v2" |}
            _ _ _
            {| resp_status := 200;
               resp_headers := [("content-type", "application/json")];
               resp_text := "(the text of the value below)";
               resp_json := Some (JObj [("id", JNum 1); ("name", JStr "A")]) |}
            _ (Demo.plain "{ invalid syntax")
            (JObj [("id", JNum 1); ("name", JStr "A")])
            _ _ _ _ eq_refl eq_refl eq_refl _ _).
  - vm_compute. reflexivity.
  - vm_compute. reflexivity.
  - vm_compute. reflexivity.
  - vm_compute. reflexivity.
  - reflexivity.
Defined.

Lemma version_detection_precedence_witness :
  exists ctx w',
    parseRequestContext Demo.three_versions "request-0"
      (Demo.world (Demo.env_with Demo.failing_store)) = (Normal ctx, w')
    /\ apiVersion ctx = "v1".
Proof.
  destruct (version_detection_precedence Demo.three_versions "request-0"
              (Demo.world (Demo.env_with Demo.failing_store)))
    as (ctx & w' & Hrun & _ & Hv1).
  exists ctx, w'. split; [exact Hrun|]. apply Hv1. reflexivity.
Defined.

End WorkerFacts.


(* ================================================================== *)
(** * Further properties of the code *)
(* ================================================================== *)

(* ------------------------------------------------------------------ *)
(** ** The expression cache: expiry and capacity *)
(* ------------------------------------------------------------------ *)

Module CacheMore.

Import ExpressionCache.

Section Entries.

Variable A : Type.
Implicit Types (m : JsMap A) (c : t A).

Lemma map_get_delete_same k m : map_get k (map_delete k m) = None.
Proof.
  induction m as [|[x e] m IH]; simpl; [reflexivity|].
  destruct (String.eqb x k) eqn:E; simpl; [assumption|]. now rewrite E.
Qed.

Lemma map_get_set k (e : CacheEntry A) m : map_get k (map_set k e m) = Some e.
Proof.
  induction m as [|[x ex] m IH]; simpl.
  - now rewrite String.eqb_refl.
  - destruct (String.eqb x k) eqn:E; simpl; rewrite E; [reflexivity|assumption].
Qed.

Lemma set_then_lookup now k e ttl0 c :
  map_get k (cache (set now k e ttl0 c))
  = Some {| expression := e; cachedAt := now; ttl := ttl0 |}.
Proof. unfold set. simpl. apply map_get_set. Qed.

(** X1.  An entry set at [now] with a time to live [ttl0] is answered by a
    [get] up to and including [ttl0] later, and the hit does not renew it:
    the entry keeps the time it was set.  A [get] later than that answers
    null and removes the entry, so a following [get] misses too. *)
Theorem entry_lives_for_its_ttl now k e ttl0 later c :
  (later - now <= ttl0 ->
   fst (get later k (set now k e ttl0 c)) = Some e
   /\ map_get k (cache (snd (get later k (set now k e ttl0 c))))
      = Some {| expression := e; cachedAt := now; ttl := ttl0 |})
  /\ (ttl0 < later - now ->
      fst (get later k (set now k e ttl0 c)) = None
      /\ ~ In k (keys (snd (get later k (set now k e ttl0 c))))
      /\ forall t, fst (get t k (snd (get later k (set now k e ttl0 c)))) = None).
Proof.
  pose proof (set_then_lookup now k e ttl0 c) as Hset. split.
  - intros Hlive.
    rewrite (CacheFacts.get_answers A later k _ _ Hset) by (simpl; lia). simpl.
    split; [reflexivity|]. apply map_get_set.
  - intros Hdead. unfold get at 1 2 4. rewrite Hset. simpl.
    assert ((later - now >? ttl0) = true) as -> by (apply Z.gtb_lt; lia).
    simpl. split; [reflexivity|]. split.
    + unfold keys. simpl. rewrite CacheFacts.keys_map_delete.
      apply CacheFacts.notin_filter_differs.
    + intros t0. unfold get. simpl. now rewrite map_get_delete_same.
Qed.

Lemma length_map_set k (e : CacheEntry A) m :
  (List.length (map_set k e m) <= S (List.length m))%nat.
Proof.
  induction m as [|[x ex] m IH]; simpl; [lia|].
  destruct (String.eqb x k); simpl; lia.
Qed.

Lemma keys_map_set k (e : CacheEntry A) m x :
  In x (map fst (map_set k e m)) -> x = k \/ In x (map fst m).
Proof.
  induction m as [|[y ey] m IH]; simpl.
  - intros [<-|[]]. now left.
  - destruct (String.eqb y k); simpl; intros [<-|H]; auto.
    destruct (IH H); auto.
Qed.

Lemma length_map_delete k m :
  (List.length (map_delete k m) <= List.length m)%nat.
Proof. unfold map_delete. apply filter_length_le. Qed.

Lemma length_map_delete_present k m e :
  map_get k m = Some e ->
  (S (List.length (map_delete k m)) <= List.length m)%nat.
Proof.
  induction m as [|[x ex] m IH]; simpl; [discriminate|].
  destruct (String.eqb x k) eqn:E; simpl.
  - intros _. pose proof (length_map_delete k m). unfold map_delete in *. lia.
  - intros H. specialize (IH H). unfold map_delete in *. lia.
Qed.

Lemma keys_map_delete_in k m x :
  In x (map fst (map_delete k m)) -> In x (map fst m).
Proof.
  rewrite CacheFacts.keys_map_delete, CacheFacts.in_filter_differs. tauto.
Qed.

Lemma get_within_capacity now k c :
  within_capacity c -> within_capacity (snd (get now k c)).
Proof.
  intros (Hmax & Hsize & Hkeys). unfold within_capacity, size, keys, get in *.
  destruct (map_get k (cache c)) as [entry|] eqn:Hg; [|repeat split; assumption].
  pose proof (length_map_delete_present k (cache c) entry Hg) as Hlen.
  assert (Hsub : Forall (fun x => x <> "") (map fst (map_delete k (cache c)))).
  { rewrite Forall_forall in *. intros x Hx. apply Hkeys. revert Hx. apply keys_map_delete_in. }
  destruct (now - cachedAt entry >? ttl entry); simpl.
  - repeat split; [assumption|lia|assumption].
  - pose proof (length_map_set k entry (map_delete k (cache c))) as Hset.
    repeat split; [assumption|lia|].
    rewrite Forall_forall in *. intros x Hx. apply keys_map_set in Hx as [->|Hx].
    + apply Hkeys. exact (CacheFacts.map_get_some_in A k (cache c) entry Hg).
    + now apply Hsub.
Qed.

Lemma set_within_capacity now k e ttl0 c :
  k <> "" -> within_capacity c -> within_capacity (set now k e ttl0 c).
Proof.
  intros Hk (Hmax & Hsize & Hkeys). unfold within_capacity, set, size, keys in *. simpl.
  set (entry := {| expression := e; cachedAt := now; ttl := ttl0 |}).
  destruct (Z.of_nat (List.length (cache c)) >=? maxSize c) eqn:Hfull.
  - apply Z.geb_le in Hfull.
    destruct (cache c) as [|[x ex] m] eqn:Hc; [simpl in Hfull; lia|]. simpl first_key.
    inversion Hkeys as [|? ? Hx Hrest]; subst.
    rewrite (LoaderFacts.truthy_string_true x Hx).
    assert (Hdel : (S (List.length (map_delete x ((x, ex) :: m)))
                    <= List.length ((x, ex) :: m))%nat).
    { apply (length_map_delete_present x _ ex). simpl. now rewrite String.eqb_refl. }
    pose proof (length_map_set k entry (map_delete x ((x, ex) :: m))) as Hset.
    repeat split; [assumption|lia|].
    rewrite Forall_forall in *. intros y Hy. apply keys_map_set in Hy as [->|Hy]; [assumption|].
    apply keys_map_delete_in in Hy. destruct Hy as [<-|Hy]; [assumption|]. now apply Hrest.
  - pose proof (length_map_set k entry (cache c)) as Hset.
    assert (Z.of_nat (List.length (cache c)) < maxSize c).
    { destruct (Z.geb_spec (Z.of_nat (List.length (cache c))) (maxSize c)); [discriminate|lia]. }
    repeat split; [assumption|lia|].
    rewrite Forall_forall in *. intros y Hy. apply keys_map_set in Hy as [->|Hy]; auto.
Qed.

Lemma apply_ops_within_capacity ops : forall c,
  sets_named ops = true -> within_capacity c -> within_capacity (apply_ops ops c).
Proof.
  induction ops as [|[now k|now k e ttl0] ops IH]; intros c Hnamed Hc; simpl in *.
  - assumption.
  - apply IH; [assumption|]. now apply get_within_capacity.
  - apply andb_true_iff in Hnamed as [Hk Hnamed]. apply IH; [assumption|].
    apply set_within_capacity; [|assumption].
    unfold Js.truthy_string in Hk. destruct (String.eqb_spec k ""); [discriminate|assumption].
Qed.

(** X2.  A cache created with a capacity of at least 1 never holds more
    entries than its capacity, whatever [get] and [set] calls follow, also
    when a [set] overwrites a key that is present; no [set] uses the empty
    key. *)
Theorem cache_never_exceeds_capacity (N : Z) (ops : list (Op A)) :
  1 <= N ->
  sets_named ops = true ->
  size (apply_ops ops (new (Some N))) <= N.
Proof.
  intros HN Hnamed.
  destruct (apply_ops_within_capacity ops (new (Some N)) Hnamed) as (_ & Hsize & _).
  - repeat split; unfold size; simpl; [assumption|lia|constructor].
  - assert (Hmax : forall l (c : t A), maxSize (apply_ops l c) = maxSize c).
    { induction l as [|[now k|now k e ttl0] l IH]; intros c; simpl; [reflexivity| |].
      - now rewrite IH, CacheFacts.get_maxSize.
      - now rewrite IH. }
    now rewrite Hmax in Hsize.
Qed.

(** X3.  The eviction of [set] skips a first key that is the empty string:
    a full cache whose oldest entry has the key "" drops nothing when a new
    key comes in, and grows past its capacity. *)
Theorem empty_first_key_is_never_evicted now k e ttl0 c e0 rest :
  cache c = ("", e0) :: rest ->
  maxSize c <= size c ->
  ~ In k (keys c) ->
  size (set now k e ttl0 c) = size c + 1
  /\ maxSize c < size (set now k e ttl0 c)
  /\ In "" (keys (set now k e ttl0 c)).
Proof.
  intros Hc Hfull Hfresh. unfold set, size, keys in *.
  assert ((Z.of_nat (List.length (cache c)) >=? maxSize c) = true) as ->
      by (apply Z.geb_le; lia).
  rewrite Hc in *. simpl first_key. simpl Js.truthy_string. cbv iota.
  rewrite CacheFacts.map_set_fresh by assumption. simpl cache.
  cbn [List.length map fst] in *. rewrite length_app. cbn [List.length].
  repeat split; try lia. now left.
Qed.

End Entries.

Lemma entry_lives_for_its_ttl_witness :
  fst (get 1000 "expr:a" (set 0 "expr:a" 7%nat 1000 (new None))) = Some 7%nat
  /\ fst (get 1001 "expr:a" (set 0 "expr:a" 7%nat 1000 (new None))) = None.
Proof.
  destruct (entry_lives_for_its_ttl nat 0 "expr:a" 7%nat 1000 1000 (new None)) as [Hlive _].
  destruct (entry_lives_for_its_ttl nat 0 "expr:a" 7%nat 1000 1001 (new None)) as [_ Hdead].
  split; [apply Hlive; lia|apply Hdead; lia].
Defined.

Lemma cache_never_exceeds_capacity_witness :
  size (apply_ops [OpSet 0 "a" 1%nat 10; OpSet 1 "b" 2%nat 10; OpSet 2 "a" 3%nat 10;
                   OpGet 3 "b"; OpSet 4 "c" 4%nat 10]
                  (new (Some 2))) <= 2.
Proof.
  apply (cache_never_exceeds_capacity nat 2); [lia|reflexivity].
Defined.

Lemma empty_first_key_is_never_evicted_witness :
  size (set 5 "b" 2%nat 10
            {| cache := [("", {| expression := 1%nat; cachedAt := 0; ttl := 10 |})];
               maxSize := 1 |}) = 2.
Proof.
  destruct (empty_first_key_is_never_evicted nat 5 "b" 2%nat 10
              {| cache := [("", {| expression := 1%nat; cachedAt := 0; ttl := 10 |})];
                 maxSize := 1 |}
              {| expression := 1%nat; cachedAt := 0; ttl := 10 |} [])
    as (H & _); [reflexivity|unfold size; simpl; lia|simpl; intros [H|[]]; discriminate|].
  exact H.
Defined.

End CacheMore.

(* ------------------------------------------------------------------ *)
(** ** What a computation leaves alone *)
(* ------------------------------------------------------------------ *)

Module Frames.

Section Combinators.

Context {X : Type} (f : World -> X).

Lemma keeps_ret {A : Type} (a : A) : keeps f (ret a).
Proof. intros w. reflexivity. Qed.

Lemma keeps_throw {A : Type} (e : Thrown) : keeps f (@throw A e).
Proof. intros w. reflexivity. Qed.

Lemma keeps_bind {A B : Type} (m : M A) (k : A -> M B) :
  keeps f m -> (forall a, keeps f (k a)) -> keeps f (bind m k).
Proof.
  intros Hm Hk w. unfold bind. specialize (Hm w).
  destruct (m w) as [[a|e] w1]; simpl in *; [|assumption].
  now rewrite (Hk a w1).
Qed.

Lemma keeps_try {A : Type} (body : M A) (handler : Thrown -> M A) :
  keeps f body -> (forall e, keeps f (handler e)) -> keeps f (try_catch body handler).
Proof.
  intros Hb Hh w. unfold try_catch. specialize (Hb w).
  destruct (body w) as [[a|e] w1]; simpl in *; [assumption|].
  now rewrite (Hh e w1).
Qed.

Lemma keeps_property {A : Type} name (o : option A) : keeps f (property name o).
Proof. destruct o; intros w; reflexivity. Qed.

(** A computation that first reads the world. *)
Lemma keeps_reading {A : Type} (g : World -> M A) :
  (forall w0, keeps f (g w0)) -> keeps f (fun w => g w w).
Proof. intros H w. apply (H w). Qed.

End Combinators.

(** The engine changes the clock, the timers, the log and its own state,
    and nothing else. *)
Section Engine.

Context {X : Type} (f : World -> X) (host : Host).
Hypothesis f_logs : forall l w, f (with_logs l w) = f w.
Hypothesis f_transformer : forall t w, f (with_transformer t w) = f w.

Lemma keeps_log l message args : keeps f (log l message args).
Proof. intros w. apply f_logs. Qed.

Lemma keeps_Date_now : keeps f Date_now.
Proof. intros w. reflexivity. Qed.

Lemma keeps_compileExpression e ttl0 :
  keeps f (JsonataTransformer.compileExpression host e ttl0).
Proof.
  unfold JsonataTransformer.compileExpression.
  apply keeps_bind; [apply keeps_property|intros source].
  apply keeps_bind; [intros w; apply f_transformer|intros [c|]].
  - apply keeps_bind; [apply keeps_log|intros _; apply keeps_ret].
  - apply keeps_try; [|intros e0; apply keeps_throw].
    destruct (jsonata host source); [apply keeps_throw|].
    apply keeps_bind; [intros w; apply f_transformer|intros _].
    apply keeps_bind; [apply keeps_log|intros _; apply keeps_ret].
Qed.

Hypothesis f_clock : forall t w, f (with_clock t w) = f w.
Hypothesis f_timers : forall l n w, f (with_timers l n w) = f w.

Lemma keeps_elapse ms : keeps f (elapse ms).
Proof. intros w. apply f_clock. Qed.

Lemma keeps_executeWithTimeout c input timeoutMs :
  keeps f (JsonataTransformer.executeWithTimeout host c input timeoutMs).
Proof.
  unfold JsonataTransformer.executeWithTimeout.
  apply keeps_bind; [intros w; apply f_timers|intros id].
  apply keeps_bind; [apply keeps_elapse|intros _].
  assert (Hclear : keeps f (clearTimeout id)) by (intros w; apply f_timers).
  destruct (returned (evaluate host (compiled_from c) input)) as [v|e|n o].
  - apply keeps_bind; [exact Hclear|intros _; apply keeps_ret].
  - apply keeps_bind; [exact Hclear|intros _; apply keeps_throw].
  - apply keeps_bind; [exact Hclear|intros _].
    apply keeps_bind; [apply keeps_elapse|intros _].
    apply keeps_bind; [intros w; apply f_timers|intros _].
    destruct o; [apply keeps_ret|apply keeps_throw].
Qed.

Lemma keeps_transform input te ctx :
  keeps f (JsonataTransformer.transform host input te ctx).
Proof.
  unfold JsonataTransformer.transform.
  apply keeps_bind; [apply keeps_Date_now|intros startTime].
  apply (keeps_reading f (fun w0 => try_catch _ _)). intros w0.
  apply keeps_try.
  - apply keeps_bind; [apply keeps_compileExpression|intros c].
    apply keeps_bind; [apply keeps_executeWithTimeout|intros result].
    apply keeps_bind; [apply keeps_Date_now|intros now].
    apply keeps_bind; [apply keeps_log|intros _; apply keeps_ret].
  - intros e. apply keeps_bind; [apply keeps_Date_now|intros now].
    apply keeps_bind; [apply keeps_log|intros _; apply keeps_ret].
Qed.

End Engine.

End Frames.

(* ------------------------------------------------------------------ *)
(** ** The transformation engine: what is cached, measured and touched *)
(* ------------------------------------------------------------------ *)

Module EngineMore.

Import JsonataTransformer.

Section Engine.

Variable host : Host.

(** X4.  A source the interpreter rejects is not cached: when
    [compileExpression] throws, the interpreter threw on that source, the
    error is the interpreter's text behind a fixed prefix, the cache has no
    entry under the key of the source, and it has not grown. *)
Theorem failed_compile_is_not_cached source ttl0 w e w' :
  compileExpression host (Some source) ttl0 w = (Abrupt e, w') ->
  (exists cause,
      jsonata host source = Some cause
      /\ e = ErrorObject ("Failed to compile JSONata expression: " ++ error_message cause))
  /\ ExpressionCache.map_get (cacheKey source)
       (ExpressionCache.cache (expressionCache (transformer w'))) = None
  /\ ExpressionCache.size (expressionCache (transformer w'))
     <= ExpressionCache.size (expressionCache (transformer w)).
Proof.
  unfold compileExpression, property, bind, cache_get, cache_set, try_catch, throw, ret, log.
  simpl. unfold ExpressionCache.get.
  destruct (ExpressionCache.map_get (cacheKey source)
              (ExpressionCache.cache (expressionCache (transformer w))))
    as [entry|] eqn:Hg; simpl.
  - destruct (clock w - ExpressionCache.cachedAt entry >? ExpressionCache.ttl entry);
      simpl; [|discriminate].
    destruct (jsonata host source) as [cause|]; simpl; [|discriminate].
    intros [= <- <-]. simpl. split; [eauto|]. split.
    + apply CacheMore.map_get_delete_same.
    + unfold ExpressionCache.size. simpl.
      pose proof (CacheMore.length_map_delete Compiled (cacheKey source)
                    (ExpressionCache.cache (expressionCache (transformer w)))).
      lia.
  - destruct (jsonata host source) as [cause|]; simpl; [|discriminate].
    intros [= <- <-]. simpl. split; [eauto|]. split; [assumption|lia].
Qed.

(** X5.  A source that compiles and was not cached is cached by
    [transform] under its key, stamped with the time of the call and with a
    time to live of [cacheTtl] seconds, one hour when [cacheTtl] is missing
    or 0; this holds whether the evaluation then succeeds or throws. *)
Theorem transform_caches_compiled_expression input te ctx w source :
  expression te = Some source ->
  jsonata host source = None ->
  ExpressionCache.map_get (cacheKey source)
    (ExpressionCache.cache (expressionCache (transformer w))) = None ->
  ExpressionCache.map_get (cacheKey source)
    (ExpressionCache.cache
       (expressionCache (transformer (snd (transform host input te ctx w)))))
  = Some {| ExpressionCache.expression := {| compiled_from := source |};
            ExpressionCache.cachedAt := clock w;
            ExpressionCache.ttl := Js.number_or (cacheTtl te) 3600 * 1000 |}.
Proof.
  intros Hsource Hcompiles Hmiss.
  unfold transform. rewrite run_bind. unfold Date_now at 1. cbv beta iota.
  rewrite run_try, run_bind, Hsource.
  assert (Hcompile :
    exists w1,
      compileExpression host (Some source)
        (Some (Js.number_or (cacheTtl te) 3600 * 1000)) w
      = (Normal {| compiled_from := source |}, w1)
      /\ ExpressionCache.map_get (cacheKey source)
           (ExpressionCache.cache (expressionCache (transformer w1)))
         = Some {| ExpressionCache.expression := {| compiled_from := source |};
                   ExpressionCache.cachedAt := clock w;
                   ExpressionCache.ttl := Js.number_or (cacheTtl te) 3600 * 1000 |}).
  { unfold compileExpression, property, bind, cache_get, cache_set, try_catch, ret, log.
    simpl. unfold ExpressionCache.get. rewrite Hmiss. simpl. rewrite Hcompiles. simpl.
    eexists. split; [reflexivity|]. simpl. apply CacheMore.set_then_lookup. }
  destruct Hcompile as (w1 & -> & Hcached). rewrite run_bind.
  pose proof (Frames.keeps_executeWithTimeout transformer host
                (fun _ _ => eq_refl) (fun _ _ _ => eq_refl)
                {| compiled_from := source |} input
                (Js.number_or (ctx_timeout ctx) (defaultTimeout (transformer w))) w1)
    as Hkeep.
  destruct (executeWithTimeout host {| compiled_from := source |} input
              (Js.number_or (ctx_timeout ctx) (defaultTimeout (transformer w))) w1)
    as [[v|e] w2]; simpl in Hkeep; simpl; now rewrite Hkeep.
Qed.

(** How a call of [transform] is made of a compilation and an evaluation. *)
Lemma transform_steps input te ctx w :
  exists r l w2,
    transform host input te ctx w = (Normal r, with_logs l w2)
    /\ metrics r = Some (metrics_of (clock w2 - clock w) ctx)
    /\ ((exists e, compileExpression host (expression te)
                     (Some (Js.number_or (cacheTtl te) 3600 * 1000)) w = (Abrupt e, w2))
        \/ (exists c w1,
               compileExpression host (expression te)
                 (Some (Js.number_or (cacheTtl te) 3600 * 1000)) w = (Normal c, w1)
               /\ w2 = snd (executeWithTimeout host c input
                              (Js.number_or (ctx_timeout ctx)
                                 (defaultTimeout (transformer w))) w1))).
Proof.
  unfold transform. rewrite run_bind. unfold Date_now at 1. cbv beta iota.
  rewrite run_try, run_bind.
  destruct (compileExpression host (expression te)
              (Some (Js.number_or (cacheTtl te) 3600 * 1000)) w) as [[c|e] w1] eqn:Hc.
  - rewrite run_bind.
    destruct (executeWithTimeout host c input
                (Js.number_or (ctx_timeout ctx) (defaultTimeout (transformer w))) w1)
      as [[v|e] w2] eqn:He.
    + do 3 eexists. split; [reflexivity|]. split; [reflexivity|].
      right. exists c, w1. split; [reflexivity|]. now rewrite He.
    + do 3 eexists. split; [reflexivity|]. split; [reflexivity|].
      right. exists c, w1. split; [reflexivity|]. now rewrite He.
  - do 3 eexists. split; [reflexivity|]. split; [reflexivity|]. left. eauto.
Qed.

Lemma executeWithTimeout_clock c input timeoutMs w :
  clock w <= clock (snd (executeWithTimeout host c input timeoutMs w)).
Proof.
  unfold executeWithTimeout, bind, setTimeout, elapse, clearTimeout, run_due_timers,
    settle, ret, throw.
  simpl. destruct (returned (evaluate host (compiled_from c) input)) as [v|e|n [v|e]];
    simpl; lia.
Qed.

Lemma executeWithTimeout_timers c input timeoutMs w :
  timers_within (snd (executeWithTimeout host c input timeoutMs w)) w.
Proof.
  unfold timers_within, executeWithTimeout, bind, setTimeout, elapse, clearTimeout,
    run_due_timers, settle, ret, throw.
  destruct (returned (evaluate host (compiled_from c) input)) as [v|e|n [v|e]];
    cbn -[filter Nat.eqb]; intros t Ht;
    repeat match type of Ht with
           | In _ (filter _ (filter _ _)) => apply filter_In in Ht as [Ht _]
           end;
    apply filter_In in Ht as [[<-|Ht] Hid]; try exact Ht;
    simpl in Hid; rewrite Nat.eqb_refl in Hid; discriminate.
Qed.

(** X6.  Every outcome of [transform], success or failure, carries metrics:
    the versions and the direction of the call as they were given, and as
    duration the time that passed on the clock during the call, which is
    never negative. *)
Theorem transform_reports_metrics input te ctx w r w' :
  transform host input te ctx w = (Normal r, w') ->
  metrics r
  = Some {| durationMs := clock w' - clock w;
            fromVersion := ctx_fromVersion ctx;
            toVersion := ctx_toVersion ctx;
            direction := ctx_direction ctx |}
  /\ 0 <= clock w' - clock w.
Proof.
  intros Hrun.
  destruct (transform_steps input te ctx w) as (r0 & l & w2 & Hsteps & Hmetrics & Hw2).
  rewrite Hsteps in Hrun. injection Hrun as <- <-. simpl clock.
  split; [exact Hmetrics|].
  pose proof (Frames.keeps_compileExpression clock host
                (fun _ _ => eq_refl) (fun _ _ => eq_refl) (expression te)
                (Some (Js.number_or (cacheTtl te) 3600 * 1000)) w) as Hclock.
  destruct Hw2 as [(e & Hc)|(c & w1 & Hc & ->)]; rewrite Hc in Hclock; simpl in Hclock.
  - lia.
  - pose proof (executeWithTimeout_clock c input
                  (Js.number_or (ctx_timeout ctx) (defaultTimeout (transformer w))) w1).
    lia.
Qed.

(** X7.  [transform] works on the clock, the log and the expression cache
    only: the loader with its cached configuration, the requests sent
    upstream, the reads of the namespace and the supply of request ids are
    as before, and every timer it set is cleared, so that no timer is
    pending that was not pending before. *)
Theorem transform_touches_only_the_engine input te ctx w :
  loader (snd (transform host input te ctx w)) = loader w
  /\ sent (snd (transform host input te ctx w)) = sent w
  /\ kv_reads (snd (transform host input te ctx w)) = kv_reads w
  /\ uuid_seq (snd (transform host input te ctx w)) = uuid_seq w
  /\ timers_within (snd (transform host input te ctx w)) w.
Proof.
  repeat split;
    try (apply (Frames.keeps_transform _ host); intros; reflexivity).
  destruct (transform_steps input te ctx w) as (r0 & l & w2 & -> & _ & Hw2).
  unfold timers_within. simpl.
  pose proof (Frames.keeps_compileExpression timers host
                (fun _ _ => eq_refl) (fun _ _ => eq_refl) (expression te)
                (Some (Js.number_or (cacheTtl te) 3600 * 1000)) w) as Htimers.
  destruct Hw2 as [(e & Hc)|(c & w1 & Hc & ->)]; rewrite Hc in Htimers; simpl in Htimers.
  - intros t. now rewrite Htimers.
  - intros t Ht. rewrite <- Htimers. revert t Ht. apply executeWithTimeout_timers.
Qed.

End Engine.

Lemma failed_compile_is_not_cached_witness :
  exists w',
    compileExpression Demo.host (Some "{ invalid syntax") None
      (Demo.world (Demo.env_with Demo.failing_store))
    = (Abrupt (ErrorObject "Failed to compile JSONata expression: [object Object]"), w')
    /\ ExpressionCache.map_get (cacheKey "{ invalid syntax")
         (ExpressionCache.cache (expressionCache (transformer w'))) = None.
Proof.
  eexists. split; [vm_compute; reflexivity|].
  refine (proj1 (proj2 (failed_compile_is_not_cached Demo.host "{ invalid syntax" None
                          (Demo.world (Demo.env_with Demo.failing_store)) _ _ _))).
  vm_compute. reflexivity.
Defined.

Lemma transform_caches_compiled_expression_witness :
  ExpressionCache.map_get (cacheKey "$error()")
    (ExpressionCache.cache
       (expressionCache
          (transformer
             (snd (transform Demo.host (JNum 5)
                     {| expression := Some "$error()"; cacheTtl := Some 0;
                        description := None |}
                     Demo.context_v1 (Demo.world (Demo.env_with Demo.failing_store)))))))
  = Some {| ExpressionCache.expression := {| compiled_from := "$error()" |};
            ExpressionCache.cachedAt := 1700000000000;
            ExpressionCache.ttl := 3600000 |}.
Proof.
  apply (transform_caches_compiled_expression Demo.host (JNum 5)
           {| expression := Some "$error()"; cacheTtl := Some 0; description := None |}
           Demo.context_v1 (Demo.world (Demo.env_with Demo.failing_store)) "$error()");
    reflexivity.
Defined.

Lemma transform_reports_metrics_witness :
  exists r w',
    transform Demo.host (JNum 5) (Demo.plain "$spin()") Demo.context_v1
      (Demo.world (Demo.env_with Demo.failing_store)) = (Normal r, w')
    /\ metrics r = Some {| durationMs := 1000; fromVersion := Some "v1";
                           toVersion := Some "v2"; direction := DirRequest |}.
Proof.
  destruct (transform Demo.host (JNum 5) (Demo.plain "$spin()") Demo.context_v1
              (Demo.world (Demo.env_with Demo.failing_store))) as [[r|e] w'] eqn:Hrun.
  - exists r, w'. split; [reflexivity|].
    destruct (transform_reports_metrics Demo.host (JNum 5) (Demo.plain "$spin()")
                Demo.context_v1 (Demo.world (Demo.env_with Demo.failing_store))
                r w' Hrun) as [Hmetrics _].
    vm_compute in Hrun. injection Hrun as <- <-. exact Hmetrics.
  - vm_compute in Hrun. discriminate.
Defined.

End EngineMore.

(* ------------------------------------------------------------------ *)
(** ** The logger *)
(* ------------------------------------------------------------------ *)

Module LoggerFacts.

Import Logger.

Lemma inherited_lookup level : In level inherited_names -> levels level = Inherited.
Proof.
  unfold inherited_names. simpl.
  intros H; repeat (destruct H as [<-|H]; [reflexivity|]); destruct H.
Qed.

Lemma levels_cases level :
  (exists n, levels level = Rank n /\ 0 <= n <= 3)
  \/ (levels level = Inherited /\ In level inherited_names)
  \/ levels level = Missing.
Proof.
  unfold levels.
  destruct (String.eqb level "debug"); [left; exists 0; split; [reflexivity|lia]|].
  destruct (String.eqb level "info"); [left; exists 1; split; [reflexivity|lia]|].
  destruct (String.eqb level "warn"); [left; exists 2; split; [reflexivity|lia]|].
  destruct (String.eqb level "error"); [left; exists 3; split; [reflexivity|lia]|].
  destruct (existsb (String.eqb level) inherited_names) eqn:E; [|auto].
  right. left. split; [reflexivity|].
  apply existsb_exists in E as (x & Hx & Heq). apply String.eqb_eq in Heq. now subst.
Qed.

(** X8.  No record logged at the debug level reaches the console, whatever
    level the logger was created with: the level "debug" has the number 0,
    which [levels[level] || levels.info] replaces by the number of "info",
    so a logger created with "debug" prints what one created with "info"
    prints.  Errors are printed at every level, except by a logger created
    with a name that object literals inherit, which prints nothing. *)
Theorem debug_records_are_never_printed level records :
  (forall r, In r (console level records) -> log_level r <> LDebug)
  /\ console "debug" records = console "info" records
  /\ (In level inherited_names -> console level records = [])
  /\ (~ In level inherited_names ->
      forall r, In r records -> log_level r = LError -> In r (console level records)).
Proof.
  split; [|split; [reflexivity|split]].
  - intros r Hr Hd. apply filter_In in Hr as [_ He].
    rewrite Hd in He. unfold emits, currentLevel in He.
    destruct (levels_cases level) as [(n & Hl & Hn)|[[Hl _]|Hl]];
      rewrite Hl in He; simpl in He; try discriminate.
    destruct (n =? 0) eqn:E; [discriminate|].
    apply Z.eqb_neq in E. apply Z.leb_le in He. lia.
  - intros Hin. unfold console, emits, currentLevel. rewrite (inherited_lookup level Hin).
    induction records; simpl; auto.
  - intros Hnot r Hr He. apply filter_In. split; [assumption|].
    rewrite He. unfold emits, currentLevel.
    destruct (levels_cases level) as [(n & Hl & Hn)|[[_ Hin]|Hl]];
      [|contradiction|rewrite Hl; reflexivity].
    rewrite Hl. destruct (n =? 0); apply Z.leb_le; simpl; lia.
Qed.

Lemma debug_records_are_never_printed_witness :
  console "toString"
    [{| log_level := LDebug; log_message := "Using cached configuration"; log_args := [] |};
     {| log_level := LError; log_message := "Transformation failed:"; log_args := [] |}]
  = []
  /\ In {| log_level := LError; log_message := "Transformation failed:"; log_args := [] |}
        (console "debug"
           [{| log_level := LDebug; log_message := "Using cached configuration";
               log_args := [] |};
            {| log_level := LError; log_message := "Transformation failed:";
               log_args := [] |}]).
Proof.
  split.
  - apply (proj1 (proj2 (proj2 (debug_records_are_never_printed "toString" _)))).
    simpl. tauto.
  - apply (proj2 (proj2 (proj2 (debug_records_are_never_printed "debug" _)))).
    + simpl. intros H; repeat (destruct H as [H|H]; [discriminate|]); destruct H.
    + simpl. tauto.
    + reflexivity.
Defined.

End LoggerFacts.

(* ------------------------------------------------------------------ *)
(** ** The configuration loader: caching, reloading, references *)
(* ------------------------------------------------------------------ *)

Module LoaderFrames.

Import Frames ConfigLoader.

(** The loader changes the clock, the log, the record of reads and its own
    state, and nothing else. *)
Section Loader.

Context {X : Type} (f : World -> X) (host : Host).
Hypothesis f_clock : forall t w, f (with_clock t w) = f w.
Hypothesis f_logs : forall l w, f (with_logs l w) = f w.
Hypothesis f_reads : forall l w, f (with_kv_reads l w) = f w.
Hypothesis f_loader : forall l w, f (with_loader l w) = f w.

Lemma keeps_kv_get key : keeps f (kv_get key).
Proof.
  intros w. unfold kv_get.
  destruct (kv_outcome (TRANSFORMATIONS (loader_env (loader w)) key)); simpl;
    now rewrite f_reads, f_clock.
Qed.

Lemma keeps_set_cache c : keeps f (set_cache c).
Proof. intros w. apply f_loader. Qed.

Lemma keeps_cacheConfig cfg : keeps f (cacheConfig cfg).
Proof.
  unfold cacheConfig. apply (keeps_reading f (fun w0 => bind _ _)). intros w0.
  apply keeps_bind; [intros w; reflexivity|intros now; apply keeps_set_cache].
Qed.

Lemma keeps_loadFromKV : keeps f loadFromKV.
Proof.
  unfold loadFromKV. apply keeps_try.
  - apply keeps_bind; [apply keeps_kv_get|intros [v|]].
    + destruct (Js.truthy_string (kv_text v)).
      * destruct (kv_document v) as [cfg|]; [|apply keeps_throw].
        destruct (validateConfig cfg); [apply keeps_throw|apply keeps_ret].
      * apply keeps_bind; [now apply keeps_log|intros _; apply keeps_ret].
    + apply keeps_bind; [now apply keeps_log|intros _; apply keeps_ret].
  - intros e. apply keeps_bind; [now apply keeps_log|intros _; apply keeps_ret].
Qed.

Lemma keeps_load_uncached : keeps f (load_uncached host).
Proof.
  unfold load_uncached. apply keeps_bind.
  - apply keeps_try.
    + apply keeps_bind; [apply keeps_loadFromKV|intros [cfg|]; [|apply keeps_ret]].
      apply keeps_bind; [apply keeps_cacheConfig|intros _].
      apply keeps_bind; [now apply keeps_log|intros _; apply keeps_ret].
    + intros e. apply keeps_bind; [now apply keeps_log|intros _; apply keeps_ret].
  - intros [cfg|]; [apply keeps_ret|].
    apply keeps_bind; [intros w; reflexivity|intros cfg].
    apply keeps_bind; [apply keeps_cacheConfig|intros _].
    apply keeps_bind; [now apply keeps_log|intros _; apply keeps_ret].
Qed.

Lemma keeps_loadConfig : keeps f (loadConfig host).
Proof.
  unfold loadConfig. apply (keeps_reading f (fun w0 => bind _ _)). intros w0.
  apply keeps_bind.
  - destruct (loader_cache (loader w0)); [|apply keeps_ret].
    unfold isCacheValid. apply keeps_bind; [intros w; reflexivity|intros; apply keeps_ret].
  - intros valid. destruct (loader_cache (loader w0)) as [c|]; [|apply keeps_load_uncached].
    destruct valid; [|apply keeps_load_uncached].
    apply keeps_bind; [now apply keeps_log|intros _; apply keeps_ret].
Qed.

Lemma keeps_loadExpression key : keeps f (loadExpression key).
Proof.
  unfold loadExpression. apply keeps_try.
  - apply keeps_bind; [apply keeps_kv_get|intros v].
    apply keeps_bind; [|intros _; apply keeps_ret].
    destruct (truthy_opt (option_map kv_text v)); [now apply keeps_log|apply keeps_ret].
  - intros e. apply keeps_bind; [now apply keeps_log|intros _; apply keeps_ret].
Qed.

Lemma keeps_resolve_leg v leg write vt : keeps f (resolve_leg v leg write vt).
Proof.
  unfold resolve_leg. apply keeps_bind; [apply keeps_property|intros e].
  apply keeps_bind; [apply keeps_property|intros source].
  destruct (Js.startsWith "kv:" source); [|apply keeps_ret].
  apply keeps_bind; [apply keeps_loadExpression|intros [text|]; [|apply keeps_ret]].
  destruct (Js.truthy_string text); [|apply keeps_ret].
  apply keeps_bind; [intros w; apply f_loader|intros _; apply keeps_ret].
Qed.

Lemma keeps_getVersionTransformation v : keeps f (getVersionTransformation host v).
Proof.
  unfold getVersionTransformation.
  apply keeps_bind; [apply keeps_loadConfig|intros cfg].
  apply keeps_bind; [apply keeps_property|intros entries].
  destruct (member v entries) as [vt| |].
  - apply keeps_bind; [apply keeps_resolve_leg|intros vt1].
    apply keeps_bind; [apply keeps_resolve_leg|intros vt2; apply keeps_ret].
  - apply keeps_throw.
  - apply keeps_bind; [now apply keeps_log|intros _; apply keeps_ret].
Qed.

Lemma keeps_isSupportedVersion v : keeps f (isSupportedVersion host v).
Proof.
  unfold isSupportedVersion. apply keeps_bind; [apply keeps_loadConfig|intros cfg].
  destruct (transformations cfg); [apply keeps_ret|apply keeps_throw].
Qed.

Lemma keeps_getSupportedVersions path : keeps f (getSupportedVersions host path).
Proof.
  unfold getSupportedVersions. apply keeps_bind; [apply keeps_loadConfig|intros cfg].
  destruct (match routing cfg with Some r => member path r | None => NoMember end);
    [apply keeps_ret|apply keeps_ret|].
  destruct (transformations cfg); [apply keeps_ret|apply keeps_throw].
Qed.

End Loader.

End LoaderFrames.

Module LoaderMore.

Import ConfigLoader.

Section Loader.

Variable host : Host.

(** A load that goes to the namespace reads the configuration key once and
    caches what it returns, stamped with the time after the read and with
    the configured time to live. *)
Lemma load_uncached_detail w :
  exists cfg w',
    load_uncached host w = (Normal cfg, w')
    /\ validateConfig cfg = None
    /\ loader_cache (loader w')
       = Some {| config := cfg; config_cachedAt := clock w';
                 config_ttl := configured_ttl (loader_env (loader w)) |}
    /\ loader_env (loader w') = loader_env (loader w)
    /\ kv_reads w' = "config:main" :: kv_reads w.
Proof.
  unfold load_uncached, loadFromKV, kv_get, cacheConfig, set_cache, configured_ttl,
    getDefaultConfig, bind, try_catch, ret, log, throw, Date_now.
  simpl.
  destruct (TRANSFORMATIONS (loader_env (loader w)) "config:main") as [ms [e|[v|]]]; simpl.
  - do 2 eexists. repeat split.
  - destruct (Js.truthy_string (kv_text v)); simpl.
    + destruct (kv_document v) as [cfg|]; simpl.
      * destruct (validateConfig cfg) as [e|] eqn:Hval; simpl.
        -- do 2 eexists. repeat split.
        -- do 2 eexists. repeat split. exact Hval.
      * do 2 eexists. repeat split.
    + do 2 eexists. repeat split.
  - do 2 eexists. repeat split.
Qed.

(** Without a cached document that is still valid, [loadConfig] goes to the
    namespace. *)
Lemma loadConfig_miss w :
  (forall c, loader_cache (loader w) = Some c ->
             match config_ttl c with
             | Some ttl0 => ttl0 <= clock w - config_cachedAt c
             | None => True
             end) ->
  loadConfig host w = load_uncached host w.
Proof.
  intros Hstale. unfold loadConfig. rewrite run_bind.
  destruct (loader_cache (loader w)) as [c|]; [|reflexivity].
  specialize (Hstale c eq_refl).
  unfold isCacheValid, bind, Date_now, ret. simpl.
  destruct (config_ttl c) as [ttl0|]; [|reflexivity].
  assert ((clock w - config_cachedAt c <? ttl0) = false) as -> by (apply Z.ltb_ge; lia).
  reflexivity.
Qed.

(** X9.  The configuration is cached: a loader without a cached document
    reads the configuration key once, and a call of [loadConfig] at any
    later time less than the configured time to live after the document was
    cached returns the same document without reading the namespace. *)
Theorem loadConfig_reads_the_namespace_once w cfg w1 ttl0 t :
  loader_cache (loader w) = None ->
  loadConfig host w = (Normal cfg, w1) ->
  configured_ttl (loader_env (loader w)) = Some ttl0 ->
  t - clock w1 < ttl0 ->
  kv_reads w1 = "config:main" :: kv_reads w
  /\ exists w2,
       loadConfig host (with_clock t w1) = (Normal cfg, w2)
       /\ kv_reads w2 = kv_reads w1.
Proof.
  intros Hnone Hload Httl Hfresh.
  rewrite loadConfig_miss in Hload by (intros c Hc; congruence).
  destruct (load_uncached_detail w) as (cfg' & w' & Hrun & _ & Hcache & _ & Hreads).
  rewrite Hrun in Hload. injection Hload as <- <-.
  split; [exact Hreads|].
  eexists. split.
  - rewrite (LoaderFacts.loadConfig_cached host (with_clock t w')
               {| config := cfg'; config_cachedAt := clock w';
                  config_ttl := configured_ttl (loader_env (loader w)) |} ttl0);
      [reflexivity|exact Hcache|exact Httl|simpl; lia].
  - reflexivity.
Qed.

(** X10.  Once the time to live has passed, [loadConfig] reads the
    namespace again; the document is expired when its age equals the time to
    live.  A configured time to live that is no number, or not positive,
    turns the cache off: every call reads the namespace. *)
Theorem loadConfig_reads_again_after_expiry w cfg w1 t :
  loader_cache (loader w) = None ->
  loadConfig host w = (Normal cfg, w1) ->
  match configured_ttl (loader_env (loader w)) with
  | Some ttl0 => ttl0 <= t - clock w1
  | None => True
  end ->
  exists cfg2 w2,
    loadConfig host (with_clock t w1) = (Normal cfg2, w2)
    /\ validateConfig cfg2 = None
    /\ kv_reads w2 = "config:main" :: kv_reads w1.
Proof.
  intros Hnone Hload Hstale.
  rewrite loadConfig_miss in Hload by (intros c Hc; congruence).
  destruct (load_uncached_detail w) as (cfg' & w' & Hrun & _ & Hcache & _ & _).
  rewrite Hrun in Hload. injection Hload as <- <-.
  destruct (load_uncached_detail (with_clock t w')) as (cfg2 & w2 & Hrun2 & Hval & _ & _ & Hreads).
  exists cfg2, w2. split; [|split; [exact Hval|exact Hreads]].
  rewrite loadConfig_miss; [exact Hrun2|].
  intros c Hc. simpl in Hc. rewrite Hcache in Hc. injection Hc as <-. simpl.
  destruct (configured_ttl (loader_env (loader w))); [lia|exact I].
Qed.

(** X11.  [reload] always reads the namespace, whatever is cached, and the
    document it returns passes [validateConfig] and is the one the loader
    holds afterwards. *)
Theorem reload_reads_the_namespace w :
  exists cfg w',
    reload host w = (Normal cfg, w')
    /\ validateConfig cfg = None
    /\ cached_document w' = Some cfg
    /\ kv_reads w' = "config:main" :: kv_reads w.
Proof.
  unfold reload, clearCache. rewrite run_bind, run_bind. unfold set_cache at 1.
  cbv beta iota. unfold log at 1. cbv beta iota.
  rewrite loadConfig_miss by (simpl; intros c Hc; discriminate).
  match goal with
  | |- context [load_uncached host ?w0] =>
      destruct (load_uncached_detail w0) as (cfg & w' & Hrun & Hval & Hcache & _ & Hreads)
  end.
  exists cfg, w'. split; [exact Hrun|]. split; [exact Hval|]. split.
  - unfold cached_document. now rewrite Hcache.
  - exact Hreads.
Qed.

(** *** Lookups of a version *)















End Loader.

Lemma loadConfig_reads_the_namespace_once_witness :
  exists w1 w2,
    loadConfig Demo.host (Demo.world (Demo.env_with (Demo.store_with Demo.reference_document)))
    = (Normal Demo.reference_document, w1)
    /\ loadConfig Demo.host (with_clock (clock w1 + 3599999) w1)
       = (Normal Demo.reference_document, w2)
    /\ kv_reads w2 = ["config:main"].
Proof.
  destruct (loadConfig Demo.host
              (Demo.world (Demo.env_with (Demo.store_with Demo.reference_document))))
    as [[cfg|e] w1] eqn:Hload; [|vm_compute in Hload; discriminate].
  destruct (loadConfig_reads_the_namespace_once Demo.host
              (Demo.world (Demo.env_with (Demo.store_with Demo.reference_document)))
              cfg w1 3600000 (clock w1 + 3599999) eq_refl Hload eq_refl ltac:(lia))
    as (Hreads & w2 & Hsecond & Hsame).
  assert (cfg = Demo.reference_document) as ->
      by (vm_compute in Hload; now injection Hload as <- _).
  exists w1, w2. split; [reflexivity|]. split; [exact Hsecond|].
  rewrite Hsame, Hreads. reflexivity.
Defined.

Lemma loadConfig_reads_again_after_expiry_witness :
  exists w1 cfg2 w2,
    loadConfig Demo.host
      (Demo.world (Demo2.env_ttl (Demo.store_with Demo.reference_document) "soon"))
    = (Normal Demo.reference_document, w1)
    /\ loadConfig Demo.host (with_clock (clock w1) w1) = (Normal cfg2, w2)
    /\ kv_reads w2 = ["config:main"; "config:main"].
Proof.
  destruct (loadConfig Demo.host
              (Demo.world (Demo2.env_ttl (Demo.store_with Demo.reference_document) "soon")))
    as [[cfg|e] w1] eqn:Hload; [|vm_compute in Hload; discriminate].
  destruct (loadConfig_reads_again_after_expiry Demo.host
              (Demo.world (Demo2.env_ttl (Demo.store_with Demo.reference_document) "soon"))
              cfg w1 (clock w1) eq_refl Hload I)
    as (cfg2 & w2 & Hsecond & _ & Hreads).
  assert (Hfirst : cfg = Demo.reference_document /\ kv_reads w1 = ["config:main"])
    by (vm_compute in Hload; injection Hload as <- <-; split; reflexivity).
  destruct Hfirst as [-> Hreads1].
  exists w1, cfg2, w2. split; [reflexivity|]. split; [exact Hsecond|].
  rewrite Hreads, Hreads1. reflexivity.
Defined.





End LoaderMore.

(* ------------------------------------------------------------------ *)
(** ** More on the handler *)
(* ------------------------------------------------------------------ *)

Module WorkerFrames.

Import Frames LoaderFrames Worker.

(** The steps of the handler other than the call of the upstream change
    the clock, the timers, the log, the record of reads and the two
    services, and nothing else. *)
Section Handler.

Context {X : Type} (f : World -> X) (host : Host).
Hypothesis f_clock : forall t w, f (with_clock t w) = f w.
Hypothesis f_logs : forall l w, f (with_logs l w) = f w.
Hypothesis f_timers : forall l n w, f (with_timers l n w) = f w.
Hypothesis f_transformer : forall t w, f (with_transformer t w) = f w.
Hypothesis f_reads : forall l w, f (with_kv_reads l w) = f w.
Hypothesis f_loader : forall l w, f (with_loader l w) = f w.

Lemma keeps_parseRequestContext request rid :
  keeps f (parseRequestContext request rid).
Proof.
  unfold parseRequestContext.
  apply keeps_bind; [|intros body; apply keeps_ret].
  destruct (negb (String.eqb (req_method request) "GET")
            && negb (String.eqb (req_method request) "HEAD")
            && is_json (headers_get "content-type" (req_headers request)))%bool;
    [|apply keeps_ret].
  destruct (req_json request) as [v|]; [apply keeps_ret|].
  apply keeps_bind; [now apply keeps_log|intros _; apply keeps_ret].
Qed.

Lemma keeps_initialize_services env : keeps f (initialize_services env).
Proof.
  intros w. unfold initialize_services. simpl. now rewrite f_transformer, f_loader.
Qed.

Lemma keeps_prepare request env rid : keeps f (prepare host request env rid).
Proof.
  unfold prepare.
  apply keeps_bind; [apply keeps_parseRequestContext|intros context].
  apply keeps_bind; [apply keeps_initialize_services|intros _].
  apply keeps_bind; [now apply keeps_loadConfig|intros config].
  apply keeps_bind; [now apply keeps_log|intros _].
  apply keeps_bind; [now apply keeps_isSupportedVersion|intros supported].
  destruct (negb supported).
  - apply keeps_bind; [now apply keeps_getSupportedVersions|intros versions].
    apply keeps_ret.
  - apply keeps_bind; [now apply keeps_getVersionTransformation|intros [vt|]];
      apply keeps_ret.
Qed.

Lemma keeps_request_leg context config av vt :
  keeps f (request_leg host context config av vt).
Proof.
  unfold request_leg.
  destruct (truthy (body context) && negb (strict_eq av (upstreamVersion config)))%bool;
    [|apply keeps_ret].
  apply keeps_bind; [apply keeps_property|intros leg].
  destruct (negb (strict_eq (expression leg) (Some "$"))); [|apply keeps_ret].
  apply keeps_bind; [now apply keeps_transform|intros r].
  destruct (negb (success r));
    (apply keeps_bind; [now apply keeps_log|intros _; apply keeps_ret]).
Qed.

Lemma keeps_response_leg context config av vt up :
  keeps f (response_leg host context config av vt up).
Proof.
  unfold response_leg.
  destruct (is_json (headers_get "content-type" (resp_headers up))); [|apply keeps_ret].
  apply keeps_bind;
    [|intros r; unfold json_Response;
      destruct (null_body_status (resp_status up)
                && match r with JUndefined => false | _ => true end)%bool;
      [apply keeps_throw|apply keeps_ret]].
  destruct (truthy match resp_json up with Some v => v | None => JNull end
            && negb (strict_eq av (upstreamVersion config)))%bool;
    [|apply keeps_ret].
  apply keeps_bind; [apply keeps_property|intros leg].
  destruct (negb (strict_eq (expression leg) (Some "$"))); [|apply keeps_ret].
  apply keeps_bind; [now apply keeps_transform|intros r].
  destruct (negb (success r));
    (apply keeps_bind; [now apply keeps_log|intros _; apply keeps_ret]).
Qed.

End Handler.

Lemma keeps_transform_sent host input te ctx w :
  sent (snd (JsonataTransformer.transform host input te ctx w)) = sent w.
Proof. apply (keeps_transform sent host); reflexivity. Qed.

End WorkerFrames.

Module WorkerMore.

Import Worker.

Lemma take_digits_splits s :
  Js.all_digits (fst (take_digits s)) = true
  /\ s = fst (take_digits s) ++ snd (take_digits s).
Proof.
  induction s as [|c s [IHd IHs]]; simpl; [split; reflexivity|].
  destruct (Js.is_digit c) eqn:Hc; simpl.
  - rewrite Hc, IHd. split; [reflexivity|]. now rewrite <- IHs.
  - split; reflexivity.
Qed.

(** X16.  The pattern of the path, [^\/(v\d+)\//]: a path gives a version
    exactly when it is a slash, the letter v, one digit or more, a slash and
    whatever follows; the version is the v with all those digits. *)
Theorem path_version_is_the_first_segment pathname v :
  path_version pathname = Some v
  <-> exists digits rest,
        digits <> "" /\ Js.all_digits digits = true
        /\ pathname = "/v" ++ digits ++ "/" ++ rest
        /\ v = "v" ++ digits.
Proof.
  split.
  - unfold path_version. destruct pathname as [|a [|b r]]; try discriminate.
    + destruct a as [[] [] [] [] [] [] [] []]; discriminate.
    + destruct a as [[] [] [] [] [] [] [] []]; try discriminate;
        destruct b as [[] [] [] [] [] [] [] []]; try discriminate.
      destruct (take_digits_splits r) as [Hd Hr].
      destruct (Js.truthy_string (fst (take_digits r))) eqn:Hne; [|discriminate].
      simpl. destruct (snd (take_digits r)) as [|c rest] eqn:Hrest; [discriminate|].
      cbn [prefix]. destruct (ascii_dec "/" c) as [<-|]; [|discriminate].
      destruct rest; intros [= <-]; exists (fst (take_digits r)); eexists;
        (split; [intros E; rewrite E in Hne; discriminate|]);
        (split; [exact Hd|]); (split; [|reflexivity]);
        simpl; rewrite Hr at 1; reflexivity.
  - intros (digits & rest & Hne & Hd & -> & ->).
    now apply WorkerFacts.path_version_matches.
Qed.

Section Handler.

Variable host : Host.

Lemma sent_after_prepare request env rid w :
  sent (snd (prepare host request env rid w)) = sent w.
Proof. apply (WorkerFrames.keeps_prepare sent host); reflexivity. Qed.

Lemma sent_after_request_leg context config av vt w :
  sent (snd (request_leg host context config av vt w)) = sent w.
Proof. apply (WorkerFrames.keeps_request_leg sent host); reflexivity. Qed.

Lemma sent_after_response_leg context config av vt up w :
  sent (snd (response_leg host context config av vt up w)) = sent w.
Proof. apply (WorkerFrames.keeps_response_leg sent host); reflexivity. Qed.

Lemma prepare_refused request env rid w r w' :
  prepare host request env rid w = (Normal (Refused r), w') ->
  status r = 400 \/ status r = 500.
Proof.
  unfold prepare. rewrite run_bind.
  destruct (parseRequestContext request rid w) as [[context|e] w1]; [|discriminate].
  rewrite run_bind.
  destruct (initialize_services env w1) as [[[]|e] w2]; [|discriminate].
  rewrite run_bind.
  destruct (ConfigLoader.loadConfig host w2) as [[config|e] w3]; [|discriminate].
  rewrite run_bind. unfold log at 1. cbv beta iota. rewrite run_bind.
  destruct (ConfigLoader.isSupportedVersion host _ _) as [[supported|e] w4]; [|discriminate].
  destruct (negb supported).
  - rewrite run_bind.
    destruct (ConfigLoader.getSupportedVersions host _ _) as [[versions|e] w5];
      [|discriminate].
    intros [= <- _]. now left.
  - rewrite run_bind.
    destruct (ConfigLoader.getVersionTransformation host _ _) as [[[vt|]|e] w5];
      try discriminate.
    intros [= <- _]. now right.
Qed.

Lemma request_leg_answer context config av vt w r w' :
  request_leg host context config av vt w = (Normal (Answer r), w') ->
  status r = 400.
Proof.
  unfold request_leg.
  destruct (truthy (body context) && negb (strict_eq av (upstreamVersion config)))%bool;
    [|discriminate].
  rewrite run_bind.
  destruct (property "expression" (request vt) w) as [[leg|e] w1]; [|discriminate].
  destruct (negb (strict_eq (expression leg) (Some "$"))); [|discriminate].
  rewrite run_bind.
  destruct (JsonataTransformer.transform host _ _ _ w1) as [[result|e] w2]; [|discriminate].
  destruct (negb (success result)); [|discriminate].
  intros [= <- _]. reflexivity.
Qed.

Lemma response_leg_status context config av vt up w r w' :
  response_leg host context config av vt up w = (Normal r, w') ->
  status r = resp_status up.
Proof.
  unfold response_leg.
  destruct (is_json (headers_get "content-type" (resp_headers up)));
    [|intros [= <- _]; reflexivity].
  rewrite run_bind.
  match goal with
  | |- match ?m w with _ => _ end = _ -> _ => destruct (m w) as [[v|e] w1]
  end; [|discriminate].
  unfold json_Response.
  destruct (null_body_status (resp_status up)
            && match v with JUndefined => false | _ => true end)%bool;
    [discriminate|].
  intros [= <- _]. reflexivity.
Qed.

(** X17.  [fetch] never throws: it answers every request.  It sends at
    most one request upstream.  When it sends none its answer has status 400
    or 500; when it sends one its answer has the status of the upstream's
    answer to that request, or 500. *)
Theorem fetch_always_answers request env w :
  exists r w',
    fetch host request env w = (Normal r, w')
    /\ ((sent w' = sent w /\ (status r = 400 \/ status r = 500))
        \/ (exists rq,
              sent w' = rq :: sent w
              /\ (status r = 500
                  \/ exists up,
                       snd (fetch_upstream host rq) = FetchResolves up
                       /\ status r = resp_status up))).
Proof.
  unfold fetch. rewrite run_bind. unfold draw_uuid at 1. cbv beta iota.
  set (rid := randomUUID host (uuid_seq w)).
  set (w0 := with_uuid_seq (S (uuid_seq w)) w).
  assert (H0 : sent w0 = sent w) by reflexivity.
  rewrite run_try. unfold handle. rewrite run_bind.
  pose proof (sent_after_prepare request env rid w0) as H1.
  pose proof (prepare_refused request env rid w0) as Hrefused.
  destruct (prepare host request env rid w0) as [[[r|context config av vt]|e] w1];
    simpl in H1.
  - do 2 eexists. split; [reflexivity|]. left. split; [congruence|].
    now apply (Hrefused r w1).
  - rewrite run_bind.
    pose proof (sent_after_request_leg context config av vt w1) as H2.
    pose proof (request_leg_answer context config av vt w1) as Hanswer.
    destruct (request_leg host context config av vt w1) as [[[r|upstreamBody]|e] w2];
      simpl in H2.
    + do 2 eexists. split; [reflexivity|]. left. split; [congruence|].
      left. now apply (Hanswer r w2).
    + rewrite run_bind. unfold forward.
      destruct (new_URL host _ _) as [e|address].
      * do 2 eexists. split; [reflexivity|]. left. simpl. split; [congruence|now right].
      * cbv beta zeta.
        set (rq := upstream_request request context address upstreamBody).
        destruct (snd (fetch_upstream host rq)) as [e|up] eqn:Hup.
        -- do 2 eexists. split; [reflexivity|]. right. exists rq. simpl.
           split; [congruence|now left].
        -- set (w3 := with_sent _ _).
           pose proof (sent_after_response_leg context config av vt (received up) w3)
             as H3.
           pose proof (response_leg_status context config av vt (received up) w3)
             as Hstatus.
           destruct (response_leg host context config av vt (received up) w3)
             as [[r|e] w4]; simpl in H3.
           ++ do 2 eexists. split; [reflexivity|]. right. exists rq.
              split; [rewrite H3; simpl; congruence|].
              right. exists up. split; [exact Hup|].
              rewrite <- (WorkerFacts.received_status up). now apply (Hstatus r w4).
           ++ do 2 eexists. split; [reflexivity|]. right. exists rq. simpl.
              split; [rewrite H3; simpl; congruence|now left].
    + do 2 eexists. split; [reflexivity|]. left. simpl. split; [congruence|now right].
  - do 2 eexists. split; [reflexivity|]. left. simpl. split; [congruence|now right].
Qed.

(** X18.  A request whose body cannot be transformed is answered with
    status 400 and the engine's message, and nothing is sent upstream. *)
Theorem request_failure_is_answered_without_upstream
        incoming env w ctx cfg av vt w2 leg r :
  prepare host incoming env (randomUUID host (uuid_seq w))
          (with_uuid_seq (S (uuid_seq w)) w)
  = (Normal (Ready ctx cfg av vt), w2) ->
  truthy (body ctx) = true ->
  strict_eq av (upstreamVersion cfg) = false ->
  request vt = Some leg ->
  strict_eq (expression leg) (Some "$") = false ->
  fst (JsonataTransformer.transform host (body ctx) leg
         {| ctx_fromVersion := av; ctx_toVersion := upstreamVersion cfg;
            ctx_direction := DirRequest; ctx_timeout := None |} w2) = Normal r ->
  success r = false ->
  exists w',
    fetch host incoming env w
    = (Normal (createErrorResponse
                 (JObj [("error", JStr "Request transformation failed");
                        ("message",
                         JStr (render (or_else (error r)
                                         (Some "Unknown transformation error"))))])
                 400 av),
       w')
    /\ sent w' = sent w.
Proof.
  intros Hprep Hbody Hversion Hleg Hsentinel Hrun Hfail.
  pose proof (sent_after_prepare incoming env (randomUUID host (uuid_seq w))
                (with_uuid_seq (S (uuid_seq w)) w)) as H1.
  rewrite Hprep in H1. simpl in H1.
  unfold fetch. rewrite run_bind. unfold draw_uuid at 1. cbv beta iota.
  rewrite run_try. unfold handle. rewrite run_bind, Hprep, run_bind.
  unfold request_leg. rewrite Hbody, Hversion. cbn [andb negb].
  rewrite run_bind. unfold property at 1. rewrite Hleg. unfold ret at 1.
  rewrite Hsentinel. cbn [negb]. rewrite run_bind.
  pose proof (WorkerFrames.keeps_transform_sent host (body ctx) leg
                {| ctx_fromVersion := av; ctx_toVersion := upstreamVersion cfg;
                   ctx_direction := DirRequest; ctx_timeout := None |} w2) as H2.
  destruct (JsonataTransformer.transform host (body ctx) leg _ w2) as [[r'|e] w3];
    simpl in Hrun; [|discriminate].
  injection Hrun as ->. rewrite Hfail. simpl in *.
  eexists. split; [reflexivity|]. simpl. congruence.
Qed.

(** X19.  When the client's version is the upstream's, or both legs of its
    transformation are the identity [$], neither leg calls the engine.  The
    request leg hands the body on and leaves the world (the expression
    cache, the log, the clock) as it was.  The response leg goes straight to
    the construction of the response from the upstream's status and JSON
    value (null when the body did not parse), in the world as it was: for a
    status from 200 to 599 that allows a body, and header values the
    platform accepts, it answers with that status and value; for a null
    body status (204, 205, 304) the constructor throws, which [fetch] turns
    into a 500. *)
Theorem identity_legs_skip_the_engine ctx cfg av vt up w :
  (strict_eq av (upstreamVersion cfg) = true
   \/ exists rq rs,
        request vt = Some rq /\ response vt = Some rs
        /\ expression rq = Some "$" /\ expression rs = Some "$") ->
  is_json (headers_get "content-type" (resp_headers up)) = true ->
  let payload := match resp_json up with Some v => v | None => JNull end in
  request_leg host ctx cfg av vt w = (Normal (Continue (body ctx)), w)
  /\ response_leg host ctx cfg av vt up w
     = json_Response (resp_status up)
         [("Content-Type", "application/json");
          ("X-API-Version", render av);
          ("X-Upstream-Version", render (upstreamVersion cfg));
          ("X-Request-ID", requestId ctx);
          ("X-Powered-By", "JSONata-API-Gateway");
          ("Access-Control-Allow-Origin", "*")]
         payload w
  /\ (200 <= resp_status up <= 599 ->
      null_body_status (resp_status up) = false ->
      header_value (render av) = true ->
      header_value (render (upstreamVersion cfg)) = true ->
      header_value (requestId ctx) = true ->
      exists r,
        response_leg host ctx cfg av vt up w = (Normal r, w)
        /\ status r = resp_status up
        /\ resp_body r = BodyJson payload)
  /\ (null_body_status (resp_status up) = true ->
      resp_json up = None ->
      exists e, response_leg host ctx cfg av vt up w = (Abrupt e, w)).
Proof.
  intros Hskip Hjson payload.
  assert (Hleg : response_leg host ctx cfg av vt up w
                 = json_Response (resp_status up)
                     [("Content-Type", "application/json");
                      ("X-API-Version", render av);
                      ("X-Upstream-Version", render (upstreamVersion cfg));
                      ("X-Request-ID", requestId ctx);
                      ("X-Powered-By", "JSONata-API-Gateway");
                      ("Access-Control-Allow-Origin", "*")]
                     payload w).
  { unfold response_leg. rewrite Hjson, run_bind. fold payload.
    destruct (truthy payload); [|reflexivity].
    destruct Hskip as [->|(rq & rs & _ & Hrs & _ & Hsrc)]; [reflexivity|].
    destruct (negb (strict_eq av (upstreamVersion cfg))); [|reflexivity].
    cbn [andb]. rewrite run_bind, Hrs. unfold property, ret at 1. rewrite Hsrc.
    reflexivity. }
  split; [|split; [exact Hleg|split]].
  - unfold request_leg.
    destruct (truthy (body ctx)); [|reflexivity].
    destruct Hskip as [->|(rq & rs & Hrq & _ & Hsrc & _)]; [reflexivity|].
    destruct (negb (strict_eq av (upstreamVersion cfg))); [|reflexivity].
    cbn [andb]. rewrite run_bind, Hrq. unfold property, ret at 1. now rewrite Hsrc.
  - intros _ Hbody _ _ _. rewrite Hleg. unfold json_Response. rewrite Hbody.
    eexists. repeat split.
  - intros Hnull Hnone. rewrite Hleg. unfold json_Response, payload.
    rewrite Hnull, Hnone. eexists. reflexivity.
Qed.

(** X20.  An upstream answer that does not announce JSON is passed
    through: the handler answers with the upstream's status and body, and
    nothing happens after the upstream's answer (no transformation, no log
    record). *)
Theorem other_content_is_passed_through
        request env w ctx cfg av vt w2 upstreamBody w3 up w4 :
  prepare host request env (randomUUID host (uuid_seq w))
          (with_uuid_seq (S (uuid_seq w)) w)
  = (Normal (Ready ctx cfg av vt), w2) ->
  request_leg host ctx cfg av vt w2 = (Normal (Continue upstreamBody), w3) ->
  forward host request env ctx upstreamBody w3 = (Normal up, w4) ->
  is_json (headers_get "content-type" (resp_headers up)) = false ->
  exists r,
    fetch host request env w = (Normal r, w4)
    /\ status r = resp_status up
    /\ resp_body r = BodyStream (resp_text up).
Proof.
  intros Hprep Hreq Hfwd Hother.
  unfold fetch. rewrite run_bind. unfold draw_uuid at 1. cbv beta iota.
  rewrite run_try. unfold handle.
  rewrite run_bind, Hprep, run_bind, Hreq, run_bind, Hfwd.
  unfold response_leg. rewrite Hother.
  eexists. repeat split.
Qed.

Lemma parseRequestContext_services request rid t l w :
  parseRequestContext request rid (with_transformer t (with_loader l w))
  = (fst (parseRequestContext request rid w),
     with_transformer t (with_loader l (snd (parseRequestContext request rid w)))).
Proof.
  unfold parseRequestContext, bind, ret, log.
  destruct (negb (String.eqb (req_method request) "GET")
            && negb (String.eqb (req_method request) "HEAD")
            && is_json (headers_get "content-type" (req_headers request)))%bool;
    [|reflexivity].
  destruct (req_json request); reflexivity.
Qed.

Lemma prepare_new_services request env rid t l w :
  prepare host request env rid (with_transformer t (with_loader l w))
  = prepare host request env rid w.
Proof.
  unfold prepare. rewrite !(run_bind (parseRequestContext request rid)).
  rewrite parseRequestContext_services.
  destruct (WorkerFacts.parseRequestContext_total request rid w)
    as (ctx & w1 & -> & _).
  cbn [fst snd]. rewrite !(run_bind (initialize_services env)).
  reflexivity.
Qed.

(** X21.  Nothing of the two services survives a request: [fetch] builds
    a new loader and a new engine, so its answer and the world it leaves do
    not depend on the loader and the engine of the world it starts in.  The
    cached configuration and the cached expressions of an earlier request
    are never used. *)
Theorem services_are_built_per_request request env t l w :
  fetch host request env (with_transformer t (with_loader l w))
  = fetch host request env w.
Proof.
  unfold fetch. rewrite !run_bind. unfold draw_uuid. cbv beta iota.
  rewrite !run_try. unfold handle. rewrite !run_bind.
  change (with_uuid_seq (S (uuid_seq (with_transformer t (with_loader l w))))
            (with_transformer t (with_loader l w)))
    with (with_transformer t (with_loader l (with_uuid_seq (S (uuid_seq w)) w))).
  rewrite prepare_new_services. reflexivity.
Qed.

Lemma loadConfig_builtin env w :
  no_valid_document env ->
  serves_builtin env w ->
  exists stamp w',
    ConfigLoader.loadConfig host w = (Normal (ConfigLoader.default_config stamp), w')
    /\ serves_builtin env w'.
Proof.
  intros Hnone [Henv Hcache].
  unfold ConfigLoader.loadConfig. rewrite run_bind.
  assert (Hload : exists stamp w',
             ConfigLoader.load_uncached host w
             = (Normal (ConfigLoader.default_config stamp), w')
             /\ serves_builtin env w').
  { unfold serves_builtin, ConfigLoader.load_uncached, ConfigLoader.loadFromKV,
      ConfigLoader.kv_get, ConfigLoader.cacheConfig, ConfigLoader.set_cache,
      ConfigLoader.getDefaultConfig, bind, try_catch, ret, log, throw, Date_now.
    simpl. rewrite Henv.
    pose proof (Hnone) as Hdoc. unfold no_valid_document in Hdoc.
    destruct (TRANSFORMATIONS env "config:main") as [ms [e|[kv|]]]; simpl in *.
    - do 2 eexists. split; [reflexivity|]. simpl. split; [first [reflexivity|exact Henv]|].
      intros c [= <-]. simpl. eauto.
    - destruct (Js.truthy_string (kv_text kv)) eqn:Htext; simpl.
      + destruct (kv_document kv) as [cfg|] eqn:Hcfg; simpl.
        * assert (Hne : kv_text kv <> "").
          { intros E. rewrite E in Htext. discriminate. }
          specialize (Hdoc kv cfg eq_refl Hne Hcfg).
          destruct (ConfigLoader.validateConfig cfg) as [e|]; [|congruence]. simpl.
          do 2 eexists. split; [reflexivity|]. simpl. split; [first [reflexivity|exact Henv]|].
          intros c [= <-]. simpl. eauto.
        * do 2 eexists. split; [reflexivity|]. simpl. split; [first [reflexivity|exact Henv]|].
          intros c [= <-]. simpl. eauto.
      + do 2 eexists. split; [reflexivity|]. simpl. split; [first [reflexivity|exact Henv]|].
        intros c [= <-]. simpl. eauto.
    - do 2 eexists. split; [reflexivity|]. simpl. split; [first [reflexivity|exact Henv]|].
      intros c [= <-]. simpl. eauto. }
  destruct (loader_cache (loader w)) as [c|] eqn:Hc; [|exact Hload].
  destruct (Hcache c eq_refl) as [stamp Hstamp].
  unfold ConfigLoader.isCacheValid, bind, Date_now, ret. simpl.
  destruct (match config_ttl c with
            | Some ttl => clock w - config_cachedAt c <? ttl
            | None => false
            end); [|exact Hload].
  unfold log. rewrite Hstamp. do 2 eexists. split; [reflexivity|].
  split; [exact Henv|]. simpl. rewrite Hc. intros c' [= <-]. eauto.
Qed.

Lemma builtin_versions path stamp :
  Js.inherited path = false ->
  match match routing (ConfigLoader.default_config stamp) with
        | Some r => ConfigLoader.member path r
        | None => ConfigLoader.NoMember
        end with
  | ConfigLoader.Own versions => ConfigLoader.Listed versions
  | ConfigLoader.InheritedMember => ConfigLoader.InheritedValue path
  | ConfigLoader.NoMember => ConfigLoader.Listed ["v1"; "v2"]
  end = ConfigLoader.Listed ["v1"; "v2"].
Proof.
  intros Hpath. unfold ConfigLoader.member. rewrite Hpath.
  cbn [routing ConfigLoader.default_config ConfigLoader.assoc].
  repeat (destruct (String.eqb _ path); [reflexivity|]). reflexivity.
Qed.

Lemma parseRequestContext_path request rid w :
  path (match fst (parseRequestContext request rid w) with
        | Normal ctx => ctx
        | Abrupt _ =>
            {| url := req_url request; method := ""; headers := [];
               apiVersion := ""; path := pathname (req_url request);
               body := JNull; requestId := rid |}
        end)
  = pathname (req_url request).
Proof.
  unfold parseRequestContext, bind, ret, log.
  destruct (negb (String.eqb (req_method request) "GET")
            && negb (String.eqb (req_method request) "HEAD")
            && is_json (headers_get "content-type" (req_headers request)))%bool;
    [|reflexivity].
  destruct (req_json request); reflexivity.
Qed.

(** X22.  While the namespace holds no valid document the handler works
    with the built-in configuration: a request for a version other than v1
    and v2 is refused with status 400 and the list v1, v2, whatever its
    path, and nothing is sent upstream.  The version is none of the names
    every object inherits and is a text the platform accepts in a header;
    the path of a URL starts with a slash, so that it is no inherited name
    either. *)
Theorem builtin_configuration_refuses_other_versions request env w :
  no_valid_document env ->
  detect_version request <> "" ->
  detect_version request <> "v1" ->
  detect_version request <> "v2" ->
  Js.inherited (detect_version request) = false ->
  header_value (detect_version request) = true ->
  Js.startsWith "/" (pathname (req_url request)) = true ->
  exists w',
    fetch host request env w
    = (Normal (createErrorResponse
                 (JObj [("error", JStr "Unsupported API version");
                        ("message",
                         JStr ("Version '" ++ detect_version request
                               ++ "' is not supported"));
                        ("supportedVersions", JArr [JStr "v1"; JStr "v2"])])
                 400 (Some (detect_version request))),
       w')
    /\ sent w' = sent w.
Proof.
  intros Hnone Hne Hv1 Hv2 Hname _ Hslash.
  assert (Hpath : Js.inherited (pathname (req_url request)) = false).
  { unfold Js.startsWith in Hslash.
    destruct (pathname (req_url request)) as [|c rest]; [discriminate|].
    cbn [prefix] in Hslash. destruct (ascii_dec "/" c) as [<-|]; [|discriminate].
    reflexivity. }
  set (rid := randomUUID host (uuid_seq w)).
  set (w0 := with_uuid_seq (S (uuid_seq w)) w).
  assert (Hprep :
    fst (prepare host request env rid w0)
    = Normal (Refused
                (createErrorResponse
                   (JObj [("error", JStr "Unsupported API version");
                          ("message",
                           JStr ("Version '" ++ detect_version request
                                 ++ "' is not supported"));
                          ("supportedVersions", JArr [JStr "v1"; JStr "v2"])])
                   400 (Some (detect_version request))))).
  { unfold prepare. rewrite run_bind.
    pose proof (parseRequestContext_path request rid w0) as Hctx.
    destruct (WorkerFacts.parseRequestContext_total request rid w0)
      as (ctx & w1 & Hparse & Hv & _).
    rewrite Hparse in Hctx. cbn [fst] in Hctx. rewrite Hparse.
    rewrite run_bind. unfold initialize_services at 1. cbv beta iota zeta.
    match goal with
    | |- fst (bind _ _ ?w2) = _ =>
        destruct (loadConfig_builtin env w2 Hnone) as (stamp1 & w3 & Hload1 & Hw3)
    end.
    { split; [reflexivity|]. intros c H. discriminate. }
    rewrite run_bind, Hload1. rewrite Hv.
    assert (Hav : or_else (Some (detect_version request))
                    (defaultVersion (ConfigLoader.default_config stamp1))
                  = Some (detect_version request)).
    { unfold or_else, truthy_opt.
      now rewrite (LoaderFacts.truthy_string_true _ Hne). }
    rewrite Hav. rewrite run_bind. unfold log at 1. cbv beta iota.
    match goal with
    | |- fst (bind _ _ ?w4) = _ =>
        destruct (loadConfig_builtin env w4 Hnone) as (stamp2 & w5 & Hload2 & Hw5)
    end.
    { destruct Hw3 as [Henv Hcache]. split; [exact Henv|exact Hcache]. }
    rewrite run_bind. unfold ConfigLoader.isSupportedVersion at 1.
    rewrite run_bind, Hload2.
    apply String.eqb_neq in Hv1, Hv2.
    rewrite String.eqb_sym in Hv1. rewrite String.eqb_sym in Hv2.
    unfold ConfigLoader.has_key, ConfigLoader.own_key.
    cbn [transformations ConfigLoader.default_config existsb fst render].
    unfold ret at 1. rewrite Hv1, Hv2, Hname. cbn [orb negb].
    rewrite run_bind. unfold ConfigLoader.getSupportedVersions at 1.
    destruct (loadConfig_builtin env w5 Hnone Hw5) as (stamp3 & w6 & Hload3 & Hw6).
    rewrite run_bind, Hload3.
    pose proof (builtin_versions (path ctx) stamp3) as Hversions.
    rewrite Hctx in Hversions. specialize (Hversions Hpath). rewrite Hctx.
    destruct (match routing (ConfigLoader.default_config stamp3) with
              | Some r => ConfigLoader.member (pathname (req_url request)) r
              | None => ConfigLoader.NoMember
              end) as [versions| |].
    - injection Hversions as ->. reflexivity.
    - discriminate.
    - reflexivity. }
  pose proof (sent_after_prepare request env rid w0) as Hsent.
  destruct (prepare host request env rid w0) as [prepared w'] eqn:Hrun.
  cbn [fst snd] in Hprep, Hsent. subst prepared.
  exists w'. split; [|exact Hsent].
  unfold fetch. rewrite run_bind. unfold draw_uuid at 1. cbv beta iota.
  rewrite run_try. unfold handle. fold rid w0. rewrite run_bind, Hrun. reflexivity.
Qed.

(** X23.  While the namespace holds no valid document, a request whose
    version is one of the names every object inherits, such as
    "constructor", passes the test of [isSupportedVersion] and makes the
    lookup of its transformation throw: [fetch] answers with status 500 and
    the error "Internal server error", and nothing is sent upstream. *)
Theorem inherited_version_is_answered_with_500 request env w :
  no_valid_document env ->
  Js.inherited (detect_version request) = true ->
  exists message w',
    fetch host request env w
    = (Normal (createErrorResponse
                 (JObj [("error", JStr "Internal server error");
                        ("message", JStr message);
                        ("requestId", JStr (randomUUID host (uuid_seq w)))])
                 500 None),
       w')
    /\ sent w' = sent w.
Proof.
  intros Hnone Hname.
  assert (Hne : detect_version request <> "").
  { intros E. rewrite E in Hname. discriminate. }
  assert (Hv1 : String.eqb "v1" (detect_version request) = false).
  { destruct (String.eqb_spec "v1" (detect_version request)) as [E|]; [|reflexivity].
    rewrite <- E in Hname. discriminate. }
  assert (Hv2 : String.eqb "v2" (detect_version request) = false).
  { destruct (String.eqb_spec "v2" (detect_version request)) as [E|]; [|reflexivity].
    rewrite <- E in Hname. discriminate. }
  set (rid := randomUUID host (uuid_seq w)).
  set (w0 := with_uuid_seq (S (uuid_seq w)) w).
  assert (Hprep :
    fst (prepare host request env rid w0)
    = Abrupt (ErrorObject "Cannot read properties of undefined (reading 'expression')")).
  { unfold prepare. rewrite run_bind.
    destruct (WorkerFacts.parseRequestContext_total request rid w0)
      as (ctx & w1 & -> & Hv & _).
    rewrite run_bind. unfold initialize_services at 1. cbv beta iota zeta.
    match goal with
    | |- fst (bind _ _ ?w2) = _ =>
        destruct (loadConfig_builtin env w2 Hnone) as (stamp1 & w3 & Hload1 & Hw3)
    end.
    { split; [reflexivity|]. intros c H. discriminate. }
    rewrite run_bind, Hload1. rewrite Hv.
    assert (Hav : or_else (Some (detect_version request))
                    (defaultVersion (ConfigLoader.default_config stamp1))
                  = Some (detect_version request)).
    { unfold or_else, truthy_opt.
      now rewrite (LoaderFacts.truthy_string_true _ Hne). }
    rewrite Hav. rewrite run_bind. unfold log at 1. cbv beta iota.
    match goal with
    | |- fst (bind _ _ ?w4) = _ =>
        destruct (loadConfig_builtin env w4 Hnone) as (stamp2 & w5 & Hload2 & Hw5)
    end.
    { destruct Hw3 as [Henv Hcache]. split; [exact Henv|exact Hcache]. }
    rewrite run_bind. unfold ConfigLoader.isSupportedVersion at 1.
    rewrite run_bind, Hload2.
    unfold ConfigLoader.has_key.
    cbn [transformations ConfigLoader.default_config render].
    unfold ret at 1. rewrite Hname, orb_true_r. cbn [negb].
    rewrite run_bind. unfold ConfigLoader.getVersionTransformation at 1.
    destruct (loadConfig_builtin env w5 Hnone Hw5) as (stamp3 & w6 & Hload3 & Hw6).
    rewrite run_bind, Hload3.
    cbn [transformations ConfigLoader.default_config]. unfold property at 1.
    rewrite run_bind. unfold ret at 1.
    unfold ConfigLoader.member. cbn [ConfigLoader.assoc]. rewrite Hv1, Hv2, Hname.
    reflexivity. }
  pose proof (sent_after_prepare request env rid w0) as Hsent.
  destruct (prepare host request env rid w0) as [prepared w'] eqn:Hrun.
  cbn [fst snd] in Hprep, Hsent. subst prepared.
  do 2 eexists. split.
  - unfold fetch. rewrite run_bind. unfold draw_uuid at 1. cbv beta iota.
    rewrite run_try. unfold handle. fold rid w0. rewrite run_bind, Hrun.
    reflexivity.
  - exact Hsent.
Qed.

End Handler.

Lemma request_failure_is_answered_without_upstream_witness :
  exists r w',
    fetch Demo.host (Demo.post_users (Some (JObj [("user_id", JNum 1)])))
      (Demo.env_with (Demo.store_with Demo2.broken_request_document))
      (Demo.world (Demo.env_with (Demo.store_with Demo2.broken_request_document)))
    = (Normal r, w')
    /\ status r = 400
    /\ sent w' = [].
Proof.
  edestruct (request_failure_is_answered_without_upstream Demo.host
               (Demo.post_users (Some (JObj [("user_id", JNum 1)])))
               (Demo.env_with (Demo.store_with Demo2.broken_request_document))
               (Demo.world (Demo.env_with (Demo.store_with Demo2.broken_request_document)))
               {| url := {| pathname := "/users"; search := ""; searchParams := [] |};
                  method := "POST";
                  headers := [("API-Version", "v1"); ("Content-Type", "application/json")];
                  apiVersion := "v1";
                  path := "/users";
                  body := JObj [("user_id", JNum 1)];
                  requestId := "request-0" |}
               Demo2.broken_request_document (Some "v1")
               {| request := Some (Demo.plain "{ invalid syntax");
                  response := Some (Demo.plain "$");
                  targetVersion := Some "v2" |})
    as (w' & Hrun & Hsent).
  - vm_compute. reflexivity.
  - reflexivity.
  - reflexivity.
  - reflexivity.
  - reflexivity.
  - vm_compute. reflexivity.
  - reflexivity.
  - eexists. exists w'. split; [exact Hrun|]. split; [reflexivity|exact Hsent].
Defined.

Lemma identity_legs_skip_the_engine_witness :
  let ctx := {| url := {| pathname := "/users"; search := ""; searchParams := [] |};
                method := "POST";
                headers := [("API-Version", "v2"); ("Content-Type", "application/json")];
                apiVersion := "v2";
                path := "/users";
                body := JObj [("id", JNum 1)];
                requestId := "request-0" |} in
  let cfg := ConfigLoader.default_config "2024-01-15T00:00:00.000Z" in
  let up := {| resp_status := 200;
               resp_headers := [("content-type", "application/json")];
               resp_text := "(the text of the value below)";
               resp_json := Some (JObj [("id", JNum 1); ("name", JStr "A")]) |} in
  let empty := {| resp_status := 204;
                  resp_headers := [("content-type", "application/json")];
                  resp_text := "";
                  resp_json := None |} in
  let w := Demo.world (Demo.env_with Demo.failing_store) in
  request_leg Demo.host ctx cfg (Some "v2") Demo.current w
  = (Normal (Continue (JObj [("id", JNum 1)])), w)
  /\ (exists r,
        response_leg Demo.host ctx cfg (Some "v2") Demo.current up w = (Normal r, w)
        /\ status r = 200
        /\ resp_body r = BodyJson (JObj [("id", JNum 1); ("name", JStr "A")]))
  /\ (exists e,
        response_leg Demo.host ctx cfg (Some "v2") Demo.current empty w = (Abrupt e, w)).
Proof.
  intros ctx cfg up empty w.
  destruct (identity_legs_skip_the_engine Demo.host ctx cfg (Some "v2") Demo.current
              up w (or_introl eq_refl) eq_refl)
    as (Hrequest & _ & Hanswer & _).
  destruct (identity_legs_skip_the_engine Demo.host ctx cfg (Some "v2") Demo.current
              empty w (or_introl eq_refl) eq_refl)
    as (_ & _ & _ & Hthrows).
  split; [exact Hrequest|]. split.
  - apply Hanswer; try reflexivity. simpl. lia.
  - apply Hthrows; reflexivity.
Defined.

Lemma other_content_is_passed_through_witness :
  exists r w',
    fetch Demo2.text_host Demo.three_versions (Demo.env_with Demo.failing_store)
      (Demo.world (Demo.env_with Demo.failing_store))
    = (Normal r, w')
    /\ status r = 503
    /\ resp_body r = BodyStream "<h1>Service Unavailable</h1>".
Proof.
  edestruct (other_content_is_passed_through Demo2.text_host Demo.three_versions
               (Demo.env_with Demo.failing_store)
               (Demo.world (Demo.env_with Demo.failing_store))
               {| url := {| pathname := "/v3/users"; search := "?version=v2";
                            searchParams := [("version", "v2")] |};
                  method := "GET";
                  headers := [("API-Version", "v1")];
                  apiVersion := "v1";
                  path := "/v3/users";
                  body := JNull;
                  requestId := "request-0" |}
               (ConfigLoader.default_config "2024-01-15T00:00:00.000Z") (Some "v1"))
    as (r & Hrun & Hstatus & Hbody).
  - vm_compute. reflexivity.
  - vm_compute. reflexivity.
  - vm_compute. reflexivity.
  - reflexivity.
  - exists r. eexists. split; [exact Hrun|]. split; [exact Hstatus|exact Hbody].
Defined.

Lemma builtin_configuration_refuses_other_versions_witness :
  exists w',
    fetch Demo.host Demo2.get_v9_users (Demo.env_with Demo.failing_store)
      (Demo.world (Demo.env_with Demo.failing_store))
    = (Normal (createErrorResponse
                 (JObj [("error", JStr "Unsupported API version");
                        ("message", JStr "Version 'v9' is not supported");
                        ("supportedVersions", JArr [JStr "v1"; JStr "v2"])])
                 400 (Some "v9")),
       w')
    /\ sent w' = [].
Proof.
  apply (builtin_configuration_refuses_other_versions Demo.host Demo2.get_v9_users
           (Demo.env_with Demo.failing_store)
           (Demo.world (Demo.env_with Demo.failing_store))).
  - intros kv cfg H. vm_compute in H. discriminate.
  - intros H. vm_compute in H. discriminate.
  - intros H. vm_compute in H. discriminate.
  - intros H. vm_compute in H. discriminate.
  - reflexivity.
  - reflexivity.
  - reflexivity.
Defined.

Lemma inherited_version_is_answered_with_500_witness :
  exists message w',
    fetch Demo.host Demo2.get_users_constructor (Demo.env_with Demo.failing_store)
      (Demo.world (Demo.env_with Demo.failing_store))
    = (Normal (createErrorResponse
                 (JObj [("error", JStr "Internal server error");
                        ("message", JStr message);
                        ("requestId", JStr "request-0")])
                 500 None),
       w')
    /\ sent w' = [].
Proof.
  apply (inherited_version_is_answered_with_500 Demo.host Demo2.get_users_constructor
           (Demo.env_with Demo.failing_store)
           (Demo.world (Demo.env_with Demo.failing_store))).
  - intros kv cfg H. vm_compute in H. discriminate.
  - reflexivity.
Defined.

End WorkerMore.
